(** * The user-record command set of [app/cli.py]

    A shallow embedding of the eight commands of [app/cli.py] and of the part
    of the object-relational mapper they drive: a session holding a unit of
    work over in-memory objects, a committed store, and the lines printed.

    Strings are byte strings ([string] is a list of [ascii]), taken to be
    within the length the storage accepts as a parameter, as the arguments
    of a command line are; the surrogate key and the [limit]/[offset]
    arguments are Python integers, hence [Z]. *)

From Stdlib Require Import List String Ascii ZArith Lia Bool.
Import ListNotations.

Local Open Scope Z_scope.
Local Open Scope list_scope.

Infix "+s+" := String.append (at level 60, right associativity).

(* ================================================================== *)
(** ** Data model *)

Module models.

(** Modelled from the spec: [app/models.py] is not among the sources.  The
    spec (section 3) gives the entity: [username] (unique), [email]
    (unique), [password] stored as given, and a surrogate identifier
    assigned by storage on insert, so it is absent ([None]) on an object
    that was never inserted. *)
Record User : Type := mkUser
  { id : option Z;
    username : string;
    email : string;
    password : string }.

(** Modelled from the spec: the constructor [User(username, email,
    password)] called by [initialize] and [create_user]; the password is
    stored as given. *)
Definition init (username email password : string) : User :=
  mkUser None username email password.

Definition with_id (u : User) (i : Z) : User :=
  mkUser (Some i) (username u) (email u) (password u).

Definition with_email (u : User) (e : string) : User :=
  mkUser (id u) (username u) e (password u).

End models.
Import models.

(** The User table: its rows in storage order.  The storage hands out
    increasing surrogate keys, so storage order is insertion order. *)
Abbreviation Table := (list User) (only parsing).

(** The persisted state: [None] while no table exists (before
    [create_db_and_tables], after [drop_all]). *)
Abbreviation Database := (option (list User)) (only parsing).

Inductive Exception : Type :=
| IntegrityError        (* a uniqueness constraint rejected a write *)
| OperationalError      (* no such table; a LIKE pattern too long *)
| OverflowError         (* an integer parameter outside the 64-bit range *)
| PendingRollbackError  (* the session was used after a failed flush *)
| InvalidRequestError.  (* a reference to no object of the session *)

Inductive Result (A : Type) : Type :=
| Return (a : A)
| Raised (e : Exception).
Arguments Return {A} a.
Arguments Raised {A} e.

(** What [print] receives: a text, or a user object (rendered by the
    [__str__] of [app/models.py], which is not among the sources). *)
Inductive Line : Type :=
| Text (s : string)
| Repr (u : User).

(* ================================================================== *)
(** ** The storage: statements on the User table *)

Definition id_is (i : Z) (r : User) : bool :=
  match id r with
  | Some j => Z.eqb j i
  | None => false
  end.

Definition ids (t : Table) : list Z :=
  flat_map (fun r => match id r with Some i => [i] | None => [] end) t.

(** The key the storage assigns to the next inserted row: one more than the
    largest key in use, so a later row has a larger key. *)
Definition fresh_id (t : Table) : Z := 1 + fold_right Z.max 0 (ids t).

Definition username_taken (n : string) (t : Table) : bool :=
  existsb (fun r => String.eqb (username r) n) t.

Definition email_taken (e : string) (t : Table) : bool :=
  existsb (fun r => String.eqb (email r) e) t.

(** [INSERT INTO user (username, email, password)]: rejected when either
    unique column already holds the value; the row goes last and gets the
    fresh key, which is returned. *)
Definition sql_insert (u : User) (t : Table) : Result (Z * Table) :=
  if username_taken (username u) t || email_taken (email u) t
  then Raised IntegrityError
  else let i := fresh_id t in Return (i, t ++ [with_id u i]).

(** Does a row other than the one with key [i] hold the email [e]? *)
Definition email_held_by_other (i : Z) (e : string) (t : Table) : bool :=
  existsb (fun r => negb (id_is i r) && String.eqb (email r) e) t.

(** The table with the email of the row with key [i] set to [e]. *)
Definition set_email_of (i : Z) (e : string) (t : Table) : Table :=
  map (fun r => if id_is i r then with_email r e else r) t.

(** [UPDATE user SET email = e WHERE id = i]: rejected when a row other than
    the one updated holds [e]. *)
Definition sql_update_email (i : Z) (e : string) (t : Table) : Result Table :=
  if email_held_by_other i e t then Raised IntegrityError
  else Return (set_email_of i e t).

(** [DELETE FROM user WHERE id = i]. *)
Definition sql_delete (i : Z) (t : Table) : Table :=
  filter (fun r => negb (id_is i r)) t.

(** [SELECT ... WHERE id = i]. *)
Definition sql_get (i : Z) (t : Table) : option User := find (id_is i) t.

(** *** LIKE patterns

    [%] stands for any run of characters, [_] for any one character, every
    other character for itself; the query declares no escape character and,
    as in SQLite, there is none by default.  [ilike] compares the
    lower-cased operands, and lower-casing touches the ASCII letters only.
    Strings are byte strings, and [_] stands for one byte: the storage
    takes one UTF-8 character there, so the two differ for a query with a
    wildcard on a field with a character outside ASCII, a case on which no
    property below depends. *)

Definition lower (c : ascii) : ascii :=
  let n := N_of_ascii c in
  if (N.leb 65 n && N.leb n 90)%bool then ascii_of_N (n + 32) else c.

Fixpoint lower_string (s : string) : string :=
  match s with
  | EmptyString => EmptyString
  | String c s' => String (lower c) (lower_string s')
  end.

(** [on_some_suffix f s]: [f] holds of [s] or of one of its proper suffixes. *)
Fixpoint on_some_suffix (f : string -> bool) (s : string) : bool :=
  f s || match s with
         | EmptyString => false
         | String _ s' => on_some_suffix f s'
         end.

Fixpoint like (p s : string) {struct p} : bool :=
  match p with
  | EmptyString =>
      match s with EmptyString => true | String _ _ => false end
  | String c p' =>
      if Ascii.eqb c "%" then on_some_suffix (like p') s
      else match s with
           | EmptyString => false
           | String d s' =>
               (Ascii.eqb c "_" || Ascii.eqb c d) && like p' s'
           end
  end.

Definition ilike (column pattern : string) : bool :=
  like (lower_string pattern) (lower_string column).

(** The storage turns down a LIKE pattern of more than 50000 bytes, with
    the error "LIKE or GLOB pattern too complex", when it comes to match a
    row against it. *)
Definition too_complex (pattern : string) : bool :=
  Z.ltb 50000 (Z.of_nat (String.length pattern)).

(** *** Conditions of a WHERE clause

    A condition is evaluated on a row, and the evaluation can fail. *)

Definition Condition : Type := User -> Result bool.

(** [column == value]. *)
Definition eq_ (column : User -> string) (value : string) : Condition :=
  fun r => Return (String.eqb (column r) value).

(** [column.ilike(pattern)]. *)
Definition ilike_ (column : User -> string) (pattern : string) : Condition :=
  fun r => if too_complex pattern then Raised OperationalError
           else Return (ilike (column r) pattern).

(** [a | b]: [b] is looked at when [a] does not hold. *)
Definition or_ (a b : Condition) : Condition :=
  fun r => match a r with
           | Raised e => Raised e
           | Return true => Return true
           | Return false => b r
           end.

(** The conjunction of the conditions of successive [.where()] calls. *)
Definition and_ (a b : Condition) : Condition :=
  fun r => match a r with
           | Raised e => Raised e
           | Return false => Return false
           | Return true => b r
           end.

(** *** SELECT statements over the User table *)

Record Select : Type := mkSelect
  { where_clause : Condition;
    offset_clause : option Z;
    limit_clause : option Z }.

Definition select_User : Select := mkSelect (fun _ => Return true) None None.

Definition where_ (q : Select) (c : Condition) : Select :=
  mkSelect (and_ (where_clause q) c) (offset_clause q) (limit_clause q).

Definition offset (q : Select) (n : Z) : Select :=
  mkSelect (where_clause q) (Some n) (limit_clause q).

Definition limit (q : Select) (n : Z) : Select :=
  mkSelect (where_clause q) (offset_clause q) (Some n).

(** [OFFSET n] skips [n] rows; [LIMIT n] keeps at most [n] rows (the count
    is cut at the number of rows there are, which changes nothing and keeps
    large counts computable).  For the negative values SQLite's rules are
    taken: a negative offset skips nothing, a negative limit sets no bound. *)
Definition sql_offset (n : option Z) (l : list User) : list User :=
  match n with
  | Some k => skipn (Z.to_nat (Z.min k (Z.of_nat (List.length l)))) l
  | None => l
  end.

Definition sql_limit (n : option Z) (l : list User) : list User :=
  match n with
  | Some k => if Z.ltb k 0 then l
              else firstn (Z.to_nat (Z.min k (Z.of_nat (List.length l)))) l
  | None => l
  end.

(** The rows that meet a condition, in storage order; the scan stops at the
    first row on which the condition fails to evaluate. *)
Fixpoint sql_where (c : Condition) (t : Table) : Result (list User) :=
  match t with
  | [] => Return []
  | r :: t' =>
      match c r with
      | Raised e => Raised e
      | Return b =>
          match sql_where c t' with
          | Raised e => Raised e
          | Return rows => Return (if b then r :: rows else rows)
          end
      end
  end.

Definition sql_select (q : Select) (t : Table) : Result (list User) :=
  match sql_where (where_clause q) t with
  | Raised e => Raised e
  | Return rows => Return (sql_limit (limit_clause q) (sql_offset (offset_clause q) rows))
  end.

(** An integer parameter is bound as a signed 64-bit integer; the driver
    refuses any other with an [OverflowError]. *)
Definition int64 (n : Z) : bool := Z.leb (- 2 ^ 63) n && Z.ltb n (2 ^ 63).

Definition bindable (n : option Z) : bool :=
  match n with
  | Some k => int64 k
  | None => true
  end.

(* ================================================================== *)
(** ** The session: a state and exception monad *)

(** A reference to an in-memory object: its index in the session's heap. *)
Definition ref : Type := nat.

(** An entry of the unit of work, written out by the next flush. *)
Inductive Change : Type :=
| Insert (r : ref)
| Update (r : ref)
| Delete (r : ref).

Record Session : Type := mkSession
  { store : Database;        (* the committed state of the storage *)
    heap : list User;        (* the objects the command holds, by reference *)
    pending : list Change;   (* the unit of work *)
    inactive : bool;         (* a flush failed and no rollback was issued yet *)
    stdout : list Line }.    (* what was printed, oldest first *)

Definition M (A : Type) : Type := Session -> Result A * Session.

Definition ret {A} (a : A) : M A := fun s => (Return a, s).

Definition bind {A B} (m : M A) (k : A -> M B) : M B :=
  fun s => match m s with
           | (Return a, s') => k a s'
           | (Raised e, s') => (Raised e, s')
           end.

Definition raise {A} (e : Exception) : M A := fun s => (Raised e, s).

Notation "x <- m ;; k" := (bind m (fun x => k))
  (at level 100, m at next level, right associativity).
Notation "m ;; k" := (bind m (fun _ => k))
  (at level 100, right associativity).

(** [try: body / except <catches> as e: handler / else: orelse]. *)
Definition try_except_else {A B} (body : M A) (catches : Exception -> bool)
    (handler : Exception -> M B) (orelse : A -> M B) : M B :=
  fun s => match body s with
           | (Return a, s') => orelse a s'
           | (Raised e, s') => if catches e then handler e s' else (Raised e, s')
           end.

Definition is_IntegrityError (e : Exception) : bool :=
  match e with IntegrityError => true | _ => false end.

Fixpoint for_each {A} (l : list A) (body : A -> M unit) : M unit :=
  match l with
  | [] => ret tt
  | x :: l' => body x ;; for_each l' body
  end.

Definition print (l : Line) : M unit :=
  fun s => (Return tt,
            mkSession (store s) (heap s) (pending s) (inactive s) (stdout s ++ [l])).

(** *** Objects *)

Fixpoint set_nth (h : list User) (r : ref) (u : User) : list User :=
  match h, r with
  | [], _ => []
  | _ :: h', O => u :: h'
  | x :: h', S r' => x :: set_nth h' r' u
  end.

(** Reading the attributes of an object. *)
Definition get (r : ref) : M User :=
  fun s => match nth_error (heap s) r with
           | Some u => (Return u, s)
           | None => (Raised InvalidRequestError, s)
           end.

(** [User(username, email, password)]: a new object, known to no session
    yet and without a key. *)
Definition new_User (username email password : string) : M ref :=
  fun s => (Return (List.length (heap s)),
            mkSession (store s) (heap s ++ [models.init username email password])
                      (pending s) (inactive s) (stdout s)).

(** [user.email = e] on an object loaded by the session: the object changes
    in place and the session records it as modified. *)
Definition set_email (r : ref) (e : string) : M unit :=
  u <- get r ;;
  fun s => (Return tt,
            mkSession (store s) (set_nth (heap s) r (with_email u e))
                      (pending s ++ [Update r]) (inactive s) (stdout s)).

(** *** The session's operations *)

(** [db.add(obj)]: an object without a key is scheduled for insertion; one
    the session loaded is already attached, and nothing is scheduled. *)
Definition db_add (r : ref) : M unit :=
  u <- get r ;;
  match id u with
  | None => fun s => (Return tt,
                      mkSession (store s) (heap s) (pending s ++ [Insert r])
                                (inactive s) (stdout s))
  | Some _ => ret tt
  end.

(** [db.delete(obj)]. *)
Definition db_delete (r : ref) : M unit :=
  u <- get r ;;
  match id u with
  | None => raise InvalidRequestError
  | Some _ => fun s => (Return tt,
                        mkSession (store s) (heap s) (pending s ++ [Delete r])
                                  (inactive s) (stdout s))
  end.

(** One entry of the unit of work, applied to the table; an insertion writes
    the key it was given back into the object. *)
Definition flush1 (c : Change) (th : Table * list User) : Result (Table * list User) :=
  let (t, h) := th in
  match c with
  | Insert r =>
      match nth_error h r with
      | None => Raised InvalidRequestError
      | Some u =>
          match sql_insert u t with
          | Raised e => Raised e
          | Return (i, t') => Return (t', set_nth h r (with_id u i))
          end
      end
  | Update r =>
      match nth_error h r with
      | None => Raised InvalidRequestError
      | Some u =>
          match id u with
          | None => Raised InvalidRequestError
          | Some i =>
              match sql_update_email i (email u) t with
              | Raised e => Raised e
              | Return t' => Return (t', h)
              end
          end
      end
  | Delete r =>
      match nth_error h r with
      | None => Raised InvalidRequestError
      | Some u =>
          match id u with
          | None => Raised InvalidRequestError
          | Some i => Return (sql_delete i t, h)
          end
      end
  end.

Fixpoint flush (cs : list Change) (th : Table * list User) : Result (Table * list User) :=
  match cs with
  | [] => Return th
  | c :: cs' =>
      match flush1 c th with
      | Raised e => Raised e
      | Return th' => flush cs' th'
      end
  end.

(** An object as the storage has it now (objects are expired by a commit and
    read again from the storage when next looked at). *)
Definition reload (t : Table) (u : User) : User :=
  match id u with
  | None => u
  | Some i => match sql_get i t with Some r => r | None => u end
  end.

(** [db.commit()]: flush the unit of work and make the result the committed
    state.  When a statement is rejected nothing is committed and the
    exception is raised; the failed flush has undone the transaction, so the
    unit of work is empty and the objects are as the storage has them, and
    the session stays inactive until [db.rollback()]. *)
Definition db_commit : M unit :=
  fun s =>
    if inactive s then (Raised PendingRollbackError, s)
    else match pending s, store s with
         | [], _ => (Return tt, s)
         | _ :: _, None =>
             (Raised OperationalError,
              mkSession (store s) (heap s) [] true (stdout s))
         | _ :: _, Some t =>
             match flush (pending s) (t, heap s) with
             | Raised e =>
                 (Raised e,
                  mkSession (store s) (map (reload t) (heap s)) [] true (stdout s))
             | Return (t', h') =>
                 (Return tt, mkSession (Some t') (map (reload t') h') [] false (stdout s))
             end
         end.

(** [db.rollback()]: the unit of work is dropped and the session is active
    again. *)
Definition db_rollback : M unit :=
  fun s => (Return tt, mkSession (store s) (heap s) [] false (stdout s)).

(** [db.refresh(obj)]: read the object's row again. *)
Definition db_refresh (r : ref) : M unit :=
  u <- get r ;;
  fun s =>
    if inactive s then (Raised PendingRollbackError, s)
    else match store s, id u with
         | None, _ => (Raised OperationalError, s)
         | Some _, None => (Raised InvalidRequestError, s)
         | Some t, Some i =>
             match sql_get i t with
             | None => (Raised InvalidRequestError, s)
             | Some row =>
                 (Return tt,
                  mkSession (store s) (set_nth (heap s) r row) (pending s)
                            (inactive s) (stdout s))
             end
         end.

(** [db.exec(statement)]: the selected rows, loaded as objects of the
    session; the result holds their references in row order.  The statement
    is prepared first, which fails when there is no table; then its
    parameters are bound, which fails for an offset or a limit outside the
    64-bit range; then the rows are scanned.  (Every command issues its one
    query before it schedules anything, so no flush precedes the query.) *)
Definition db_exec (q : Select) : M (list ref) :=
  fun s =>
    if inactive s then (Raised PendingRollbackError, s)
    else match store s with
         | None => (Raised OperationalError, s)
         | Some t =>
             if negb (bindable (offset_clause q) && bindable (limit_clause q))
             then (Raised OverflowError, s)
             else match sql_select q t with
                  | Raised e => (Raised e, s)
                  | Return rows =>
                      (Return (seq (List.length (heap s)) (List.length rows)),
                       mkSession (store s) (heap s ++ rows) (pending s) (inactive s)
                                 (stdout s))
                  end
         end.

(** [.first()] and [.all()] on a result. *)
Definition first (res : list ref) : option ref := hd_error res.
Definition all (res : list ref) : list ref := res.

(** [print(user)]. *)
Definition print_user (r : ref) : M unit :=
  u <- get r ;; print (Repr u).

(** *** Schema setup and the scoped session *)

(** Modelled from the spec: [drop_all] of [app/database.py], which is not
    among the sources; the spec's table of commands has initialize drop all
    tables. *)
Definition drop_all : M unit :=
  fun s => (Return tt, mkSession None (heap s) (pending s) (inactive s) (stdout s)).

(** Modelled from the spec: [create_db_and_tables] of [app/database.py],
    which is not among the sources; the spec (section 4.1) has it recreate
    the User table, and it leaves a table that exists as it is. *)
Definition create_db_and_tables : M unit :=
  fun s => (Return tt,
            mkSession (match store s with None => Some [] | Some t => Some t end)
                      (heap s) (pending s) (inactive s) (stdout s)).

(** What one invocation of a command leaves behind. *)
Record Outcome : Type := mkOutcome
  { result : Result unit;   (* [Return tt]: normal exit; [Raised e]: crash *)
    at_exit : Session;      (* the session as the body left it, before release *)
    database : Database;    (* the persisted state afterwards *)
    printed : list Line }.

Definition Command : Type := Database -> Outcome.

Definition open_session (db : Database) : Session := mkSession db [] [] false [].

(** Modelled from the spec: [get_session] of [app/database.py], which is not
    among the sources; the spec (section 4.1) has it give the body one
    session on the backing store and release it on every exit path: whatever
    was not committed is dropped with the session. *)
Definition with_get_session (body : M unit) : Command :=
  fun db =>
    let (r, s) := body (open_session db) in
    mkOutcome r s (store s) (stdout s).

(* ================================================================== *)
(** ** The commands of [app/cli.py] *)

(** [initialize] (cli.py, lines 11-23): drop and recreate the tables, then
    insert the seed user. *)
Definition initialize : Command :=
  with_get_session (
    drop_all ;;
    create_db_and_tables ;;
    bob <- new_User "bob" "bob@mail.com" "bobpass" ;;
    db_add bob ;;
    db_commit ;;
    db_refresh bob ;;
    print (Text "Database Initialized")).

(** [get_user] (lines 25-37): find a user by username and print it. *)
Definition get_user (username : string) : Command :=
  with_get_session (
    res <- db_exec (where_ select_User (eq_ models.username username)) ;;
    match first res with
    | None => print (Text (username +s+ " not found!"))
    | Some user => print_user user
    end).

(** [get_all_users] (lines 39-50). *)
Definition get_all_users : Command :=
  with_get_session (
    res <- db_exec select_User ;;
    match all res with
    | [] => print (Text "No users found")
    | all_users => for_each all_users print_user
    end).

(** [change_email] (lines 53-69): no [try] around the commit.  The last
    line reads the attributes of [user] after the commit. *)
Definition change_email (username new_email : string) : Command :=
  with_get_session (
    res <- db_exec (where_ select_User (eq_ models.username username)) ;;
    match first res with
    | None => print (Text (username +s+ " not found! Unable to update email."))
    | Some user =>
        set_email user new_email ;;
        db_add user ;;
        db_commit ;;
        u <- get user ;;
        print (Text ("Updated " +s+ models.username u +s+ "'s email to " +s+ email u))
    end).

(** [create_user] (lines 71-90): the object is built outside the [try];
    [except IntegrityError] rolls back and prints, [else] prints the user. *)
Definition create_user (username email password : string) : Command :=
  with_get_session (
    newuser <- new_User username email password ;;
    try_except_else
      (db_add newuser ;; db_commit)
      is_IntegrityError
      (fun e =>
         db_rollback ;;
         print (Text "Username or email already taken!"))
      (fun _ => print_user newuser)).

(** [delete_user] (lines 92-106). *)
Definition delete_user (username : string) : Command :=
  with_get_session (
    res <- db_exec (where_ select_User (eq_ models.username username)) ;;
    match first res with
    | None => print (Text (username +s+ " not found! Unable to delete user."))
    | Some user =>
        db_delete user ;;
        db_commit ;;
        print (Text (username +s+ " deleted"))
    end).

(** [get_user_from_partial] (lines 114-133): the query goes into the
    pattern as it is, between two percent signs. *)
Definition get_user_from_partial (query : string) : Command :=
  with_get_session (
    res <- db_exec (where_ select_User
             (or_ (ilike_ email ("%" +s+ query +s+ "%"))
                  (ilike_ models.username ("%" +s+ query +s+ "%")))) ;;
    match all res with
    | [] => print (Text ("No matches for '" +s+ query +s+ "'."))
    | matching_users => for_each matching_users print_user
    end).

(** [get_first_n_users] (lines 138-158). *)
Definition get_first_n_users (limit_ offset_ : Z) : Command :=
  with_get_session (
    res <- db_exec (limit (offset select_User offset_) limit_) ;;
    match all res with
    | [] => print (Text "No users found.")
    | users => for_each users print_user
    end).

(** One invocation of the command-line program: the command and the
    arguments it is given. *)
Inductive Invocation : Type :=
| Initialize
| GetUser (username : string)
| GetAllUsers
| ChangeEmail (username new_email : string)
| CreateUser (username email password : string)
| DeleteUser (username : string)
| GetUserFromPartial (query : string)
| GetFirstNUsers (limit_ offset_ : option Z).

(** An optional argument, with the default of the signature. *)
Definition default (d : Z) (arg : option Z) : Z :=
  match arg with
  | Some v => v
  | None => d
  end.

(** [cli()]: dispatch to the command function; [get_first_n_users] has
    [limit = 10] and [offset = 0] for the arguments left out. *)
Definition cli (c : Invocation) : Command :=
  match c with
  | Initialize => initialize
  | GetUser n => get_user n
  | GetAllUsers => get_all_users
  | ChangeEmail n e => change_email n e
  | CreateUser n e p => create_user n e p
  | DeleteUser n => delete_user n
  | GetUserFromPartial q => get_user_from_partial q
  | GetFirstNUsers l o => get_first_n_users (default 10 l) (default 0 o)
  end.

(* ================================================================== *)
(** ** The vocabulary of the properties *)

(** The lines of a listing: the rows, or the text for an empty result. *)
Definition listing (empty : string) (rows : list User) : list Line :=
  match rows with
  | [] => [Text empty]
  | _ :: _ => map Repr rows
  end.

(** The rows with a given username, as the lookups of [get_user],
    [change_email] and [delete_user] select them. *)
Definition named (n : string) (t : Table) : list User :=
  filter (fun u => String.eqb (username u) n) t.

(** The seed user as the storage holds it after [initialize]. *)
Definition bob : User := mkUser (Some 1) "bob" "bob@mail.com" "bobpass".

(** A table the storage can hold: every row has a key, and the key, the
    username and the email are each held by one row only. *)
Definition valid (t : Table) : Prop :=
  Forall (fun r => id r <> None) t /\
  NoDup (map id t) /\ NoDup (map username t) /\ NoDup (map email t).

Definition valid_db (db : Database) : Prop :=
  match db with
  | None => True
  | Some t => valid t
  end.

(** The invariant of the data model: no username and no email occurs twice. *)
Definition unique_columns (db : Database) : Prop :=
  match db with
  | None => True
  | Some t => NoDup (map username t) /\ NoDup (map email t)
  end.

(** The spec's words for the partial match: [q] occurs in [s] as a
    substring once both are lower-cased. *)
Definition substring_ci (q s : string) : Prop :=
  exists pre post, lower_string s = pre +s+ lower_string q +s+ post.

Fixpoint starts_with (q s : string) : bool :=
  match q, s with
  | EmptyString, _ => true
  | String _ _, EmptyString => false
  | String c q', String d s' => Ascii.eqb c d && starts_with q' s'
  end.

(** The decision procedure for [substring_ci]. *)
Definition contains_ci (q s : string) : bool :=
  on_some_suffix (starts_with (lower_string q)) (lower_string s).


(** The rows [get_user_from_partial] selects. *)
Definition partial_matches (query : string) (t : Table) : list User :=
  filter (fun u => ilike (email u) ("%" +s+ query +s+ "%")
                   || ilike (username u) ("%" +s+ query +s+ "%")) t.

(** The page [get_first_n_users] selects. *)
Definition page (limit_ offset_ : Z) (t : Table) : list User :=
  sql_limit (Some limit_) (sql_offset (Some offset_) t).

(** The spec's words for [get_user_from_partial]: the records in which the
    query occurs as a substring of the username or of the email, letter
    case aside, or the no-matches message when there is none. *)
Definition substring_matches (q : string) (t : Table) : list User :=
  filter (fun u => contains_ci q (username u) || contains_ci q (email u)) t.

Definition substring_report (q : string) (t : Table) : list Line :=
  listing ("No matches for '" +s+ q +s+ "'.") (substring_matches q t).

(** Seeding: one [create_user] per (username, email, password), in order. *)
Definition seed (users : list (string * string * string)) (db : Database) : Database :=
  fold_left (fun db u => let '(n, e, p) := u in database (create_user n e p db)) users db.

Definition fields (u : User) : string * string * string :=
  (username u, email u, password u).

Definition name_of (u : string * string * string) : string := fst (fst u).
Definition mail_of (u : string * string * string) : string := snd (fst u).

(** The spec's words for an email update: the record of that username gets
    the new email, and nothing else changes. *)
Definition email_changed (n e : string) (t : Table) : Table :=
  map (fun r => if String.eqb (username r) n then with_email r e else r) t.

Definition alice : User := mkUser (Some 2) "alice" "alice@mail.com" "alicepass".

(** The table without the records of a username. *)
Definition without (n : string) (t : Table) : Table :=
  filter (fun r => negb (String.eqb (username r) n)) t.

(** A query made of percent signs only. *)
Fixpoint all_percent (q : string) : bool :=
  match q with
  | EmptyString => true
  | String c q' => Ascii.eqb c "%" && all_percent q'
  end.


(** The states the persisted database goes through: it starts without
    tables, or as [initialize] leaves it whatever it held before, and then
    changes by invocations of the program only. *)
Inductive reachable : option (list User) -> Prop :=
| reachable_fresh : reachable None
| reachable_initialized (db0 : Database) : reachable (database (initialize db0))
| reachable_step (db : Database) (c : Invocation) :
    reachable db -> reachable (database (cli c db)).

(* ================================================================== *)
(** ** Facts about the storage *)

Local Open Scope string_scope.
Local Open Scope list_scope.

Lemma username_taken_In (n : string) (t : Table) :
  username_taken n t = true <-> In n (map username t).
Proof.
  unfold username_taken. rewrite existsb_exists, in_map_iff. split.
  - intros [r [Hr Heq]]. apply String.eqb_eq in Heq. eauto.
  - intros [r [Heq Hr]]. exists r. split; [assumption|]. now apply String.eqb_eq.
Qed.

Lemma email_taken_In (e : string) (t : Table) :
  email_taken e t = true <-> In e (map email t).
Proof.
  unfold email_taken. rewrite existsb_exists, in_map_iff. split.
  - intros [r [Hr Heq]]. apply String.eqb_eq in Heq. eauto.
  - intros [r [Heq Hr]]. exists r. split; [assumption|]. now apply String.eqb_eq.
Qed.

Lemma ids_bounded (t : Table) (r : User) (i : Z) :
  In r t -> id r = Some i -> i <= fold_right Z.max 0 (ids t).
Proof.
  induction t as [|a t IH]; intros Hin Hid; [contradiction|].
  unfold ids in *. cbn [flat_map]. destruct Hin as [->|Hin].
  - rewrite Hid. cbn. lia.
  - specialize (IH Hin Hid). rewrite fold_right_app.
    destruct (id a); cbn; lia.
Qed.

(** The fresh key is the key of no row. *)
Lemma fresh_id_unused (t : Table) (r : User) :
  In r t -> id_is (fresh_id t) r = false.
Proof.
  intros Hin. unfold id_is. destruct (id r) as [j|] eqn:Hid; [|reflexivity].
  apply Z.eqb_neq. pose proof (ids_bounded t r j Hin Hid). unfold fresh_id. lia.
Qed.

Lemma find_app_miss {A} (f : A -> bool) (l l' : list A) :
  (forall x, In x l -> f x = false) -> find f (l ++ l') = find f l'.
Proof.
  induction l as [|a l IH]; intros H; [reflexivity|].
  cbn. rewrite (H a (or_introl eq_refl)). apply IH. intros x Hx. apply H. now right.
Qed.

(** The row just inserted is the one its key finds. *)
Lemma sql_get_inserted (t : Table) (u : User) :
  sql_get (fresh_id t) (t ++ [with_id u (fresh_id t)]) = Some (with_id u (fresh_id t)).
Proof.
  unfold sql_get. rewrite find_app_miss by apply fresh_id_unused.
  cbn. unfold id_is. cbn. now rewrite Z.eqb_refl.
Qed.

(* ================================================================== *)
(** ** What each command does on a database whose table exists *)

Lemma for_each_print_user (rows h : list User) (db : Database) (pe : list Change)
    (ia : bool) (out : list Line) :
  for_each (seq (List.length h) (List.length rows)) print_user
           (mkSession db (h ++ rows) pe ia out)
  = (Return tt, mkSession db (h ++ rows) pe ia (out ++ map Repr rows)).
Proof.
  revert h out. induction rows as [|a rows IH]; intros h out.
  - cbn. now rewrite !app_nil_r.
  - cbn [List.length seq for_each]. unfold bind at 1. unfold print_user at 1.
    unfold bind at 1. unfold get at 1. cbn [heap].
    rewrite nth_error_app2, Nat.sub_diag by apply Nat.le_refl. cbn [nth_error].
    unfold print at 1. cbn [store heap pending inactive stdout].
    specialize (IH (h ++ [a]) (out ++ [Repr a])).
    rewrite length_app, Nat.add_1_r, <- !app_assoc in IH. cbn [app] in IH.
    rewrite IH. cbn [map]. reflexivity.
Qed.

(** A command that runs one query and prints its result: the parameters
    are within range and the scan succeeds. *)
Lemma listing_command (q : Select) (empty : string) (t : Table) (rows : list User) :
  bindable (offset_clause q) && bindable (limit_clause q) = true ->
  sql_select q t = Return rows ->
  with_get_session (
    res <- db_exec q ;;
    match all res with
    | [] => print (Text empty)
    | users => for_each users print_user
    end) (Some t)
  = mkOutcome (Return tt)
      (mkSession (Some t) rows [] false (listing empty rows))
      (Some t) (listing empty rows).
Proof.
  intros Hb Hq. unfold with_get_session, bind, db_exec, open_session.
  cbn [inactive store heap]. rewrite Hb, Hq. cbn [negb].
  destruct rows as [|a rows]; [reflexivity|].
  unfold all. cbn [List.length app seq].
  change (0%nat :: seq 1 (List.length rows)) with (seq (List.length (@nil User)) (List.length (a :: rows))).
  change (a :: rows) with ([] ++ a :: rows) at 2.
  rewrite for_each_print_user. reflexivity.
Qed.

(** The same command when the query fails: a parameter out of range, or a
    condition that does not evaluate.  The exception leaves the command,
    nothing is printed and the session is as it was opened. *)
Lemma listing_command_overflow (q : Select) (empty : string) (t : Table) :
  bindable (offset_clause q) && bindable (limit_clause q) = false ->
  with_get_session (
    res <- db_exec q ;;
    match all res with
    | [] => print (Text empty)
    | users => for_each users print_user
    end) (Some t)
  = mkOutcome (Raised OverflowError) (open_session (Some t)) (Some t) [].
Proof.
  intros Hb. unfold with_get_session, bind, db_exec, open_session.
  cbn [inactive store heap]. now rewrite Hb.
Qed.

Lemma listing_command_raises (q : Select) (empty : string) (t : Table) (e : Exception) :
  bindable (offset_clause q) && bindable (limit_clause q) = true ->
  sql_select q t = Raised e ->
  with_get_session (
    res <- db_exec q ;;
    match all res with
    | [] => print (Text empty)
    | users => for_each users print_user
    end) (Some t)
  = mkOutcome (Raised e) (open_session (Some t)) (Some t) [].
Proof.
  intros Hb Hq. unfold with_get_session, bind, db_exec, open_session.
  cbn [inactive store heap]. now rewrite Hb, Hq.
Qed.

(** Whatever the query does, such a command writes nothing and schedules
    nothing, and prints nothing when it fails. *)
Lemma listing_command_frame (q : Select) (empty : string) (t : Table) :
  let o := with_get_session (
             res <- db_exec q ;;
             match all res with
             | [] => print (Text empty)
             | users => for_each users print_user
             end) (Some t) in
  database o = Some t /\ pending (at_exit o) = [] /\ inactive (at_exit o) = false /\
  (result o <> Return tt -> printed o = []).
Proof.
  cbv zeta.
  destruct (bindable (offset_clause q) && bindable (limit_clause q)) eqn:Hb.
  - destruct (sql_select q t) as [rows|e] eqn:Hq.
    + rewrite (listing_command q empty t rows Hb Hq).
      cbn [database at_exit pending inactive result]. repeat split. congruence.
    + rewrite (listing_command_raises q empty t e Hb Hq). now repeat split.
  - rewrite (listing_command_overflow q empty t Hb). now repeat split.
Qed.

(** One step of symbolic evaluation of a session: projections of the
    session record, of user objects, and the list operations on the heap. *)
Ltac session_step :=
  cbn [inactive store heap pending stdout app nth_error set_nth flush flush1
       id email username password with_email with_id models.init
       List.length seq first hd_error].

(** A condition that always evaluates selects by filtering. *)
Lemma sql_where_pure (c : Condition) (f : User -> bool) (t : Table) :
  (forall r, In r t -> c r = Return (f r)) -> sql_where c t = Return (filter f t).
Proof.
  induction t as [|a t IH]; intros H; [reflexivity|].
  cbn [sql_where filter]. rewrite (H a (or_introl eq_refl)), IH.
  - now destruct (f a).
  - intros r Hr. apply H. now right.
Qed.

(** A condition that fails on the first row fails the scan. *)
Lemma sql_where_fails (c : Condition) (e : Exception) (a : User) (t : Table) :
  c a = Raised e -> sql_where c (a :: t) = Raised e.
Proof. intros H. cbn [sql_where]. now rewrite H. Qed.

(** The query [select(User).where(User.username == n)]. *)
Lemma select_named (n : string) (t : Table) :
  sql_select (where_ select_User (eq_ username n)) t = Return (named n t).
Proof.
  unfold sql_select. cbn [where_ select_User where_clause offset_clause limit_clause].
  rewrite (sql_where_pure _ (fun u => String.eqb (username u) n)); [reflexivity|].
  intros r _. reflexivity.
Qed.

Lemma filter_head {A} (c : A -> bool) (l : list A) (a : A) (rest : list A) :
  filter c l = a :: rest -> In a l /\ c a = true.
Proof.
  intros E. apply filter_In. rewrite E. now left.
Qed.

Lemma filter_none {A} (c : A -> bool) (l : list A) :
  filter c l = [] <-> forall x, In x l -> c x = false.
Proof.
  split.
  - intros E x Hx. destruct (c x) eqn:Hc; [|reflexivity].
    assert (H : In x (filter c l)) by now apply filter_In.
    rewrite E in H. contradiction.
  - induction l as [|a l IH]; intros H; [reflexivity|].
    cbn. rewrite (H a (or_introl eq_refl)). apply IH. intros x Hx. apply H. now right.
Qed.

Lemma named_In (n : string) (t : Table) (a : User) (rest : list User) :
  named n t = a :: rest -> In a t /\ username a = n.
Proof.
  intros E. apply filter_head in E. destruct E as [Hin Hc].
  split; [assumption|]. now apply String.eqb_eq.
Qed.

Lemma named_none (n : string) (t : Table) :
  named n t = [] <-> ~ In n (map username t).
Proof.
  unfold named. rewrite filter_none, in_map_iff. split.
  - intros H [r [Heq Hr]]. specialize (H r Hr). apply String.eqb_neq in H. contradiction.
  - intros H r Hr. apply String.eqb_neq. intros Heq. apply H. eauto.
Qed.

Lemma get_user_found (n : string) (t : Table) (a : User) (rest : list User) :
  named n t = a :: rest ->
  get_user n (Some t)
  = mkOutcome (Return tt) (mkSession (Some t) (a :: rest) [] false [Repr a])
      (Some t) [Repr a].
Proof.
  intros E. unfold get_user, with_get_session, bind, db_exec, open_session.
  cbn [inactive store heap where_ select_User offset_clause limit_clause bindable andb negb].
  rewrite select_named, E.
  reflexivity.
Qed.

Lemma get_user_missing (n : string) (t : Table) :
  named n t = [] ->
  get_user n (Some t)
  = mkOutcome (Return tt) (mkSession (Some t) [] [] false [Text (n +s+ " not found!")])
      (Some t) [Text (n +s+ " not found!")].
Proof.
  intros E. unfold get_user, with_get_session, bind, db_exec, open_session.
  cbn [inactive store heap where_ select_User offset_clause limit_clause bindable andb negb].
  rewrite select_named, E.
  reflexivity.
Qed.

Lemma delete_user_missing (n : string) (t : Table) :
  named n t = [] ->
  delete_user n (Some t)
  = mkOutcome (Return tt)
      (mkSession (Some t) [] [] false [Text (n +s+ " not found! Unable to delete user.")])
      (Some t) [Text (n +s+ " not found! Unable to delete user.")].
Proof.
  intros E. unfold delete_user, with_get_session, bind, db_exec, open_session.
  cbn [inactive store heap where_ select_User offset_clause limit_clause bindable andb negb].
  rewrite select_named, E.
  reflexivity.
Qed.

Lemma delete_user_found (n : string) (t : Table) (a : User) (rest : list User) (i : Z) :
  named n t = a :: rest -> id a = Some i ->
  delete_user n (Some t)
  = mkOutcome (Return tt)
      (mkSession (Some (sql_delete i t)) (map (reload (sql_delete i t)) (a :: rest))
                 [] false [Text (n +s+ " deleted")])
      (Some (sql_delete i t)) [Text (n +s+ " deleted")].
Proof.
  intros E Hid. unfold delete_user, with_get_session, bind, db_exec, open_session.
  cbn [inactive store heap where_ select_User offset_clause limit_clause bindable andb negb].
  rewrite select_named, E.
  session_step. unfold db_delete, bind, get. session_step. rewrite Hid.
  unfold db_commit. session_step. rewrite Hid. reflexivity.
Qed.

Lemma change_email_missing (n e : string) (t : Table) :
  named n t = [] ->
  change_email n e (Some t)
  = mkOutcome (Return tt)
      (mkSession (Some t) [] [] false [Text (n +s+ " not found! Unable to update email.")])
      (Some t) [Text (n +s+ " not found! Unable to update email.")].
Proof.
  intros E. unfold change_email, with_get_session, bind, db_exec, open_session.
  cbn [inactive store heap where_ select_User offset_clause limit_clause bindable andb negb].
  rewrite select_named, E.
  reflexivity.
Qed.

Lemma change_email_rejected (n e : string) (t : Table) (a : User) (rest : list User) (i : Z) :
  named n t = a :: rest -> id a = Some i ->
  email_held_by_other i e t = true ->
  change_email n e (Some t)
  = mkOutcome (Raised IntegrityError)
      (mkSession (Some t) (map (reload t) (with_email a e :: rest)) [] true [])
      (Some t) [].
Proof.
  intros E Hid Hheld. unfold change_email, with_get_session, bind, db_exec, open_session.
  cbn [inactive store heap where_ select_User offset_clause limit_clause bindable andb negb].
  rewrite select_named, E.
  session_step. unfold set_email, db_add, bind, get. session_step.
  rewrite Hid. unfold ret, db_commit. session_step.
  rewrite Hid. unfold sql_update_email. rewrite Hheld. reflexivity.
Qed.

Lemma change_email_accepted (n e : string) (t : Table) (a : User) (rest : list User) (i : Z) :
  named n t = a :: rest -> id a = Some i ->
  email_held_by_other i e t = false ->
  let t' := set_email_of i e t in
  let a' := reload t' (with_email a e) in
  let line := Text ("Updated " +s+ username a' +s+ "'s email to " +s+ email a') in
  change_email n e (Some t)
  = mkOutcome (Return tt)
      (mkSession (Some t') (a' :: map (reload t') rest) [] false [line])
      (Some t') [line].
Proof.
  intros E Hid Hheld. unfold change_email, with_get_session, bind, db_exec, open_session.
  cbn [inactive store heap where_ select_User offset_clause limit_clause bindable andb negb].
  rewrite select_named, E.
  session_step. unfold set_email, db_add, bind, get. session_step.
  rewrite Hid. unfold ret, db_commit. session_step.
  rewrite Hid. unfold sql_update_email. rewrite Hheld. reflexivity.
Qed.

Lemma create_user_rejected (n e p : string) (t : Table) :
  username_taken n t || email_taken e t = true ->
  create_user n e p (Some t)
  = mkOutcome (Return tt)
      (mkSession (Some t) [models.init n e p] [] false
                 [Text "Username or email already taken!"])
      (Some t) [Text "Username or email already taken!"].
Proof.
  intros Htaken. unfold create_user, with_get_session, bind, new_User, open_session.
  session_step. unfold try_except_else, db_add, get, print_user, bind. session_step.
  unfold db_commit. session_step. unfold sql_insert. session_step.
  rewrite Htaken. reflexivity.
Qed.

Lemma create_user_accepted (n e p : string) (t : Table) :
  username_taken n t || email_taken e t = false ->
  let row := mkUser (Some (fresh_id t)) n e p in
  create_user n e p (Some t)
  = mkOutcome (Return tt)
      (mkSession (Some (t ++ [row])) [row] [] false [Repr row])
      (Some (t ++ [row])) [Repr row].
Proof.
  intros Hfree. unfold create_user, with_get_session, bind, new_User, open_session.
  session_step. unfold try_except_else, db_add, get, print_user, bind. session_step.
  unfold db_commit. session_step. unfold sql_insert. session_step.
  rewrite Hfree. cbn [map]. unfold reload. session_step.
  change (mkUser (Some (fresh_id t)) n e p) with (with_id (models.init n e p) (fresh_id t)).
  rewrite sql_get_inserted. reflexivity.
Qed.

Lemma initialize_outcome (db : Database) :
  initialize db
  = mkOutcome (Return tt)
      (mkSession (Some [bob]) [bob] [] false [Text "Database Initialized"])
      (Some [bob]) [Text "Database Initialized"].
Proof. reflexivity. Qed.

(** X7. Without a table every command but [initialize] fails on its first
    statement: the error of the storage is raised out of the command (the
    [except] of [create_user] takes constraint violations only), nothing is
    printed and the storage stays without tables. *)
Lemma no_table (c : Invocation) :
  c <> Initialize ->
  result (cli c None) = Raised OperationalError /\
  database (cli c None) = None /\ printed (cli c None) = [].
Proof.
  intros Hc. destruct c; [contradiction| | | | | | |]; repeat split; reflexivity.
Qed.

(* ================================================================== *)
(** ** The constraints of the schema *)

Lemma valid_unique_columns (db : Database) : valid_db db -> unique_columns db.
Proof. destruct db as [t|]; [|trivial]. intros (_ & _ & Hn & He). now split. Qed.

Lemma valid_has_id (t : Table) (a : User) :
  valid t -> In a t -> exists i, id a = Some i.
Proof.
  intros (Hid & _) Hin. rewrite Forall_forall in Hid. specialize (Hid a Hin).
  destruct (id a) as [i|]; [now exists i | contradiction].
Qed.

Lemma id_is_true (i : Z) (r : User) : id_is i r = true <-> id r = Some i.
Proof.
  unfold id_is. destruct (id r) as [j|]; [|split; discriminate].
  rewrite Z.eqb_eq. split; [now intros -> | now intros [= ->]].
Qed.

(** In a valid table a key finds the one row that has it. *)
Lemma valid_sql_get (t : Table) (a : User) (i : Z) :
  NoDup (map id t) -> In a t -> id a = Some i -> sql_get i t = Some a.
Proof.
  unfold sql_get. induction t as [|x t IH]; intros Hnd Hin Hid; [contradiction|].
  cbn [map] in Hnd. apply NoDup_cons_iff in Hnd. destruct Hnd as [Hx Hnd].
  cbn [find]. destruct (id_is i x) eqn:Hix.
  - apply id_is_true in Hix. destruct Hin as [->|Hin]; [reflexivity|].
    exfalso. apply Hx. rewrite Hix, <- Hid. now apply in_map.
  - destruct Hin as [->|Hin]; [|now apply IH].
    apply id_is_true in Hid. congruence.
Qed.

Lemma valid_seed : valid [bob].
Proof.
  unfold valid, bob. cbn [map id username email].
  split; [|split; [|split]];
    try (apply NoDup_cons; [intros []|apply NoDup_nil]).
  constructor; [discriminate|constructor].
Qed.

Lemma NoDup_snoc {A} (l : list A) (x : A) : NoDup l -> ~ In x l -> NoDup (l ++ [x]).
Proof.
  intros Hl Hx. induction Hl as [|a l Ha Hl IH]; cbn.
  - constructor; [intros []|constructor].
  - constructor.
    + rewrite in_app_iff. intros [H|[->|[]]]; [now apply Ha | apply Hx; now left].
    + apply IH. intros H. apply Hx. now right.
Qed.

Lemma valid_insert (t : Table) (n e p : string) :
  valid t -> username_taken n t || email_taken e t = false ->
  valid (t ++ [mkUser (Some (fresh_id t)) n e p]).
Proof.
  intros (Hid & Hk & Hn & He) Hfree. apply orb_false_elim in Hfree.
  destruct Hfree as [Hfn Hfe]. unfold valid. rewrite !map_app. cbn [map id username email].
  repeat split.
  - apply Forall_app. split; [assumption|]. constructor; [discriminate|constructor].
  - apply NoDup_snoc; [assumption|]. rewrite in_map_iff. intros [r [Hr Hin]].
    pose proof (fresh_id_unused t r Hin) as Hfresh.
    apply id_is_true in Hr. congruence.
  - apply NoDup_snoc; [assumption|]. rewrite <- username_taken_In. congruence.
  - apply NoDup_snoc; [assumption|]. rewrite <- email_taken_In. congruence.
Qed.

Lemma NoDup_map_filter {A B} (f : A -> B) (c : A -> bool) (l : list A) :
  NoDup (map f l) -> NoDup (map f (filter c l)).
Proof.
  induction l as [|a l IH]; intros H; [constructor|].
  cbn [map] in H. apply NoDup_cons_iff in H. destruct H as [Ha H].
  cbn [filter]. destruct (c a); [|now apply IH].
  cbn [map]. constructor; [|now apply IH].
  rewrite in_map_iff. intros [x [Hx Hin]]. apply filter_In in Hin.
  apply Ha. rewrite <- Hx. apply in_map. tauto.
Qed.

Lemma valid_delete (t : Table) (i : Z) : valid t -> valid (sql_delete i t).
Proof.
  intros (Hid & Hk & Hn & He). unfold sql_delete. repeat split.
  - rewrite Forall_forall in *. intros r Hr. apply filter_In in Hr. now apply Hid.
  - now apply NoDup_map_filter.
  - now apply NoDup_map_filter.
  - now apply NoDup_map_filter.
Qed.

Lemma set_email_of_ids (i : Z) (e : string) (t : Table) :
  map id (set_email_of i e t) = map id t.
Proof.
  unfold set_email_of. rewrite map_map. apply map_ext. intros r.
  now destruct (id_is i r).
Qed.

Lemma set_email_of_usernames (i : Z) (e : string) (t : Table) :
  map username (set_email_of i e t) = map username t.
Proof.
  unfold set_email_of. rewrite map_map. apply map_ext. intros r.
  now destruct (id_is i r).
Qed.

(** Rows with another key are not touched by the update. *)
Lemma set_email_of_other (i : Z) (e : string) (t : Table) :
  (forall r, In r t -> id_is i r = false) -> set_email_of i e t = t.
Proof.
  intros H. unfold set_email_of. rewrite <- (map_id t) at 2. apply map_ext_in.
  intros r Hr. now rewrite (H r Hr).
Qed.

Lemma email_held_by_other_false (i : Z) (e : string) (t : Table) :
  email_held_by_other i e t = false <->
  forall r, In r t -> email r = e -> id r = Some i.
Proof.
  unfold email_held_by_other. split.
  - intros H r Hin He. destruct (id_is i r) eqn:Hi; [now apply id_is_true|].
    exfalso. assert (Hex : existsb (fun r => negb (id_is i r) && String.eqb (email r) e) t = true).
    { apply existsb_exists. exists r. split; [assumption|].
      rewrite Hi. cbn. now apply String.eqb_eq. }
    congruence.
  - intros H. destruct (existsb _ t) eqn:Hex; [|reflexivity].
    apply existsb_exists in Hex. destruct Hex as [r [Hin Hr]].
    apply andb_true_iff in Hr. destruct Hr as [Hi He].
    apply String.eqb_eq in He. apply H in He; [|assumption].
    apply id_is_true in He. rewrite He in Hi. discriminate.
Qed.

Lemma valid_update (t : Table) (i : Z) (e : string) :
  valid t -> email_held_by_other i e t = false -> valid (set_email_of i e t).
Proof.
  intros (Hid & Hk & Hn & He) Hfree. unfold valid.
  rewrite set_email_of_ids, set_email_of_usernames. repeat split; try assumption.
  - rewrite Forall_forall in *. intros r Hr. unfold set_email_of in Hr.
    apply in_map_iff in Hr. destruct Hr as [x [<- Hx]].
    specialize (Hid x Hx). now destruct (id_is i x).
  - rewrite email_held_by_other_false in Hfree. clear Hid Hn.
    induction t as [|a t IH]; [constructor|].
    cbn [map] in Hk, He. apply NoDup_cons_iff in Hk, He.
    destruct Hk as [Hka Hk], He as [Hea He].
    assert (Hfree' : forall r, In r t -> email r = e -> id r = Some i)
      by (intros r Hr; apply Hfree; now right).
    cbn [set_email_of map]. fold (set_email_of i e t). destruct (id_is i a) eqn:Hia.
    + apply id_is_true in Hia.
      assert (Hrest : forall r, In r t -> id_is i r = false).
      { intros r Hr. destruct (id_is i r) eqn:Hir; [|reflexivity].
        apply id_is_true in Hir. exfalso. apply Hka. rewrite Hia, <- Hir. now apply in_map. }
      rewrite (set_email_of_other i e t Hrest). cbn [email with_email].
      constructor; [|assumption]. rewrite in_map_iff. intros [r [Hre Hr]].
      specialize (Hfree' r Hr Hre). apply id_is_true in Hfree'.
      rewrite (Hrest r Hr) in Hfree'. discriminate.
    + constructor; [|now apply IH].
      unfold set_email_of. rewrite map_map, in_map_iff. intros [r [Hre Hr]].
      destruct (id_is i r) eqn:Hir; cbn [email with_email] in Hre.
      * assert (Ha : id a = Some i) by (apply Hfree; [now left | congruence]).
        apply id_is_true in Ha. congruence.
      * apply Hea. rewrite <- Hre. now apply in_map.
Qed.

(* ================================================================== *)
(** ** LIKE patterns and substrings *)

Lemma starts_with_iff (q s : string) :
  starts_with q s = true <-> exists post, s = q +s+ post.
Proof.
  revert s. induction q as [|c q IH]; intros s; cbn.
  - split; [intros _; now exists s | reflexivity].
  - destruct s as [|d s].
    + split; [discriminate | intros [post H]; discriminate].
    + rewrite andb_true_iff, Ascii.eqb_eq, IH. split.
      * intros [-> [post ->]]. now exists post.
      * intros [post [= -> ->]]. split; [reflexivity | now exists post].
Qed.

Lemma on_some_suffix_iff (f : string -> bool) (s : string) :
  on_some_suffix f s = true <-> exists pre post, s = pre +s+ post /\ f post = true.
Proof.
  induction s as [|c s IH]; cbn [on_some_suffix]; rewrite orb_true_iff.
  - split.
    + intros [H|H]; [|discriminate]. now exists EmptyString, EmptyString.
    + intros [pre [post [E H]]]. left. destruct pre; [|discriminate].
      cbn in E. now subst post.
  - rewrite IH. split.
    + intros [H|[pre [post [-> H]]]].
      * now exists EmptyString, (String c s).
      * now exists (String c pre), post.
    + intros [[|d pre] [post [E H]]]; cbn in E.
      * left. now subst post.
      * right. injection E as -> ->. now exists pre, post.
Qed.


(** [contains_ci] decides the substring relation of the spec. *)
Lemma contains_ci_iff (q s : string) :
  contains_ci q s = true <-> substring_ci q s.
Proof.
  unfold contains_ci, substring_ci. rewrite on_some_suffix_iff. split.
  - intros [pre [post [E H]]]. apply starts_with_iff in H. destruct H as [post' ->].
    now exists pre, post'.
  - intros [pre [post E]]. exists pre, (lower_string q +s+ post).
    split; [assumption|]. apply starts_with_iff. now exists post.
Qed.

Lemma lower_string_app (a b : string) :
  lower_string (a +s+ b) = lower_string a +s+ lower_string b.
Proof. induction a as [|c a IH]; cbn; [reflexivity | now rewrite IH]. Qed.




(** The pattern [%] takes any string. *)
Lemma like_percent (s : string) : like "%" s = true.
Proof.
  cbn [like Ascii.eqb Bool.eqb]. induction s as [|c s IH]; [reflexivity|].
  cbn [on_some_suffix like orb]. exact IH.
Qed.



(** With an empty query the pattern is [%%], which takes any string. *)
Lemma ilike_empty_query (s : string) : ilike s ("%" +s+ "" +s+ "%") = true.
Proof.
  unfold ilike. change (lower_string ("%" +s+ "" +s+ "%")) with "%%".
  destruct (lower_string s) as [|c x]; cbn; [reflexivity|].
  pose proof (like_percent (String c x)) as H. cbn in H. now rewrite H.
Qed.

Lemma partial_pattern_lower (q : string) :
  lower_string ("%" +s+ q +s+ "%") = "%" +s+ lower_string q +s+ "%".
Proof. cbn [String.append lower_string]. now rewrite lower_string_app. Qed.

Lemma on_some_suffix_here (f : string -> bool) (s : string) :
  f s = true -> on_some_suffix f s = true.
Proof. intros H. destruct s; cbn [on_some_suffix]; now rewrite H. Qed.

(* ================================================================== *)
(** ** The properties of the command set *)


Lemma not_taken (n e : string) (t : Table) :
  ~ In n (map username t) -> ~ In e (map email t) ->
  username_taken n t || email_taken e t = false.
Proof.
  intros Hn He. apply orb_false_intro.
  - destruct (username_taken n t) eqn:H; [|reflexivity].
    apply username_taken_In in H. contradiction.
  - destruct (email_taken e t) eqn:H; [|reflexivity].
    apply email_taken_In in H. contradiction.
Qed.



Lemma taken (n e : string) (t : Table) :
  In n (map username t) \/ In e (map email t) ->
  username_taken n t || email_taken e t = true.
Proof.
  intros [H|H]; apply orb_true_iff.
  - left. now apply username_taken_In.
  - right. now apply email_taken_In.
Qed.





(** C9. From any starting state, with or without tables, [initialize] drops
    the tables and creates the User table anew, empty; it exits normally,
    prints its confirmation, and leaves a User table that holds one row, the
    seed user [bob]. *)
Theorem initialize_seeds_one_user (db : Database) :
  let o := initialize db in
  store (snd (drop_all (open_session db))) = None /\
  store (snd ((drop_all ;; create_db_and_tables) (open_session db))) = Some [] /\
  result o = Return tt /\
  printed o = [Text "Database Initialized"] /\
  database o = Some [bob] /\
  username bob = "bob" /\ email bob = "bob@mail.com" /\ password bob = "bobpass".
Proof.
  cbv zeta. rewrite initialize_outcome. cbn [result printed database].
  split; [reflexivity|]. split; [reflexivity|].
  repeat split; reflexivity.
Qed.

(** The query of [get_user_from_partial] when its pattern is within the
    length the storage takes, or there is no row to match it against. *)
Lemma select_partial (q : string) (t : Table) :
  too_complex ("%" +s+ q +s+ "%") = false \/ t = [] ->
  sql_select (where_ select_User
                (or_ (ilike_ email ("%" +s+ q +s+ "%"))
                     (ilike_ username ("%" +s+ q +s+ "%")))) t
  = Return (partial_matches q t).
Proof.
  intros [Htc| ->]; [|reflexivity].
  unfold sql_select. cbn [where_ select_User where_clause offset_clause limit_clause].
  unfold partial_matches. rewrite (sql_where_pure _ (fun u =>
    ilike (email u) ("%" +s+ q +s+ "%") || ilike (username u) ("%" +s+ q +s+ "%")));
    [reflexivity|].
  intros r _. unfold and_, or_, ilike_. rewrite Htc.
  now destruct (ilike (email r) ("%" +s+ q +s+ "%")).
Qed.

Lemma get_user_from_partial_outcome (q : string) (t : Table) :
  too_complex ("%" +s+ q +s+ "%") = false \/ t = [] ->
  let out := listing ("No matches for '" +s+ q +s+ "'.") (partial_matches q t) in
  get_user_from_partial q (Some t)
  = mkOutcome (Return tt) (mkSession (Some t) (partial_matches q t) [] false out)
      (Some t) out.
Proof.
  intros H. cbv zeta. unfold get_user_from_partial.
  apply listing_command; [reflexivity | now apply select_partial].
Qed.

(** With a pattern the storage does not take and a row to match it
    against, the query fails. *)
Lemma get_user_from_partial_too_complex (q : string) (t : Table) :
  too_complex ("%" +s+ q +s+ "%") = true -> t <> [] ->
  get_user_from_partial q (Some t)
  = mkOutcome (Raised OperationalError) (open_session (Some t)) (Some t) [].
Proof.
  intros Htc Hne. destruct t as [|a t]; [contradiction|].
  unfold get_user_from_partial. apply listing_command_raises; [reflexivity|].
  unfold sql_select. cbn [where_ select_User where_clause].
  rewrite (sql_where_fails _ OperationalError); [reflexivity|].
  unfold and_, or_, ilike_. now rewrite Htc.
Qed.

Lemma get_all_users_outcome (t : Table) :
  get_all_users (Some t)
  = mkOutcome (Return tt) (mkSession (Some t) t [] false (listing "No users found" t))
      (Some t) (listing "No users found" t).
Proof.
  unfold get_all_users. apply listing_command; [reflexivity|].
  unfold sql_select. cbn [select_User where_clause offset_clause limit_clause].
  rewrite (sql_where_pure _ (fun _ => true)) by reflexivity.
  cbn [sql_limit sql_offset]. f_equal.
  induction t as [|a t IH]; cbn; congruence.
Qed.

Lemma get_first_n_users_outcome (l o : Z) (t : Table) :
  int64 l = true -> int64 o = true ->
  get_first_n_users l o (Some t)
  = mkOutcome (Return tt)
      (mkSession (Some t) (page l o t) [] false (listing "No users found." (page l o t)))
      (Some t) (listing "No users found." (page l o t)).
Proof.
  intros Hl Ho. unfold get_first_n_users. apply listing_command.
  - cbn [limit offset select_User limit_clause offset_clause bindable]. now rewrite Hl, Ho.
  - unfold sql_select, page.
    cbn [limit offset select_User limit_clause offset_clause where_clause].
    rewrite (sql_where_pure _ (fun _ => true)) by reflexivity.
    f_equal. f_equal. f_equal. induction t as [|a t IH]; cbn; congruence.
Qed.

(** With a limit or an offset outside the 64-bit range the query is not
    run. *)
Lemma get_first_n_users_overflow (l o : Z) (t : Table) :
  int64 o && int64 l = false ->
  get_first_n_users l o (Some t)
  = mkOutcome (Raised OverflowError) (open_session (Some t)) (Some t) [].
Proof.
  intros H. unfold get_first_n_users. apply listing_command_overflow.
  cbn [limit offset select_User limit_clause offset_clause bindable]. exact H.
Qed.

(** The two commands whose query can fail write nothing and schedule
    nothing, and print nothing when they fail. *)
Lemma get_user_from_partial_frame (q : string) (t : Table) :
  let o := get_user_from_partial q (Some t) in
  database o = Some t /\ pending (at_exit o) = [] /\ inactive (at_exit o) = false /\
  (result o <> Return tt -> printed o = []).
Proof. apply (listing_command_frame _ _ t). Qed.

Lemma get_first_n_users_frame (l o : Z) (t : Table) :
  let out := get_first_n_users l o (Some t) in
  database out = Some t /\ pending (at_exit out) = [] /\ inactive (at_exit out) = false /\
  (result out <> Return tt -> printed out = []).
Proof. apply (listing_command_frame _ _ t). Qed.

Lemma firstn_capped {A} (k : Z) (l : list A) :
  firstn (Z.to_nat (Z.min k (Z.of_nat (List.length l)))) l = firstn (Z.to_nat k) l.
Proof.
  destruct (Z.le_gt_cases k (Z.of_nat (List.length l))) as [H|H].
  - now rewrite Z.min_l.
  - rewrite Z.min_r by lia. rewrite Nat2Z.id, firstn_all.
    symmetry. apply firstn_all2. lia.
Qed.

Lemma skipn_capped {A} (k : Z) (l : list A) :
  skipn (Z.to_nat (Z.min k (Z.of_nat (List.length l)))) l = skipn (Z.to_nat k) l.
Proof.
  destruct (Z.le_gt_cases k (Z.of_nat (List.length l))) as [H|H].
  - now rewrite Z.min_l.
  - rewrite Z.min_r by lia. rewrite Nat2Z.id, skipn_all.
    symmetry. apply skipn_all2. lia.
Qed.

(** The page for a limit that is not negative. *)
Lemma page_nonneg (l o : Z) (t : Table) :
  0 <= l -> page l o t = firstn (Z.to_nat l) (skipn (Z.to_nat o) t).
Proof.
  intros Hl. unfold page, sql_limit, sql_offset.
  destruct (Z.ltb_spec l 0) as [Hneg|_]; [lia|].
  now rewrite firstn_capped, skipn_capped.
Qed.

Lemma int64_range (n : Z) : - 2 ^ 63 <= n -> n < 2 ^ 63 -> int64 n = true.
Proof.
  intros Hlo Hhi. unfold int64. apply andb_true_intro.
  split; [now apply Z.leb_le | now apply Z.ltb_lt].
Qed.

(** C10. On a table that is not empty, [get_user_from_partial] with the
    empty query builds the pattern of two percent signs, which every
    username and email matches; it prints every user, in storage order, and
    not the no-matches message. *)
Theorem get_user_from_partial_empty_query (t : Table) :
  t <> [] ->
  let o := get_user_from_partial "" (Some t) in
  (forall u, ilike (email u) ("%" +s+ "" +s+ "%") = true
             /\ ilike (username u) ("%" +s+ "" +s+ "%") = true) /\
  result o = Return tt /\
  printed o = map Repr t /\
  ~ In (Text ("No matches for '" +s+ "" +s+ "'.")) (printed o) /\
  database o = Some t.
Proof.
  intros Hne. cbv zeta. rewrite get_user_from_partial_outcome by (left; reflexivity).
  cbn [result printed database].
  assert (Hall : partial_matches "" t = t).
  { unfold partial_matches. clear Hne. induction t as [|a t IH]; [reflexivity|].
    cbn [filter]. rewrite !ilike_empty_query. cbn [orb]. now rewrite IH. }
  rewrite Hall. split; [intros u; split; apply ilike_empty_query|].
  split; [reflexivity|].
  destruct t as [|a t]; [contradiction|]. cbn [listing].
  split; [reflexivity|]. split; [|reflexivity].
  rewrite in_map_iff. intros [u [Hu _]]. discriminate.
Qed.

(** C10 on the table that holds the seed user. *)
Lemma get_user_from_partial_empty_query_witness :
  let o := get_user_from_partial "" (Some [bob]) in
  (forall u, ilike (email u) ("%" +s+ "" +s+ "%") = true
             /\ ilike (username u) ("%" +s+ "" +s+ "%") = true) /\
  result o = Return tt /\
  printed o = [Repr bob] /\
  ~ In (Text ("No matches for '" +s+ "" +s+ "'.")) (printed o) /\
  database o = Some [bob].
Proof.
  apply (get_user_from_partial_empty_query [bob]). discriminate.
Defined.

(** C5. The code at the query [_] on the table of the seed user: [_] is no
    substring of [bob] or of [bob@mail.com], and yet the seed user is
    printed, where the claim has the no-matches message; the query goes
    into the pattern unescaped and is read as a wildcard. *)
Lemma get_user_from_partial_wildcard_query :
  ~ substring_ci "_" (username bob) /\ ~ substring_ci "_" (email bob) /\
  printed (get_user_from_partial "_" (Some [bob])) = [Repr bob] /\
  substring_report "_" [bob] = [Text "No matches for '_'."] /\
  printed (get_user_from_partial "_" (Some [bob])) <> substring_report "_" [bob].
Proof.
  split; [|split; [|split; [|split]]].
  - rewrite <- contains_ci_iff. now vm_compute.
  - rewrite <- contains_ci_iff. now vm_compute.
  - reflexivity.
  - reflexivity.
  - vm_compute. discriminate.
Qed.

Lemma length_append (a b : string) :
  String.length (a +s+ b) = (String.length a + String.length b)%nat.
Proof. induction a as [|c a IH]; cbn; [reflexivity | now rewrite IH]. Qed.

Lemma length_lower_string (s : string) :
  String.length (lower_string s) = String.length s.
Proof. induction s as [|c s IH]; cbn; [reflexivity | now rewrite IH]. Qed.

Lemma pattern_length (q : string) :
  Z.of_nat (String.length ("%" +s+ q +s+ "%")) = Z.of_nat (String.length q) + 2.
Proof. cbn [String.append String.length]. rewrite length_append. cbn. lia. Qed.

(** The pattern built from a query of at most 49998 bytes is one the
    storage takes. *)
Lemma pattern_within (q : string) :
  Z.of_nat (String.length q) <= 49998 -> too_complex ("%" +s+ q +s+ "%") = false.
Proof.
  intros H. unfold too_complex. apply Z.ltb_ge. rewrite pattern_length. lia.
Qed.










(** *** Pages *)

(** Rows are stored in the order of their insertion. *)
Lemma seed_rows (users : list (string * string * string)) (t : Table) :
  NoDup (map name_of users) -> NoDup (map mail_of users) ->
  (forall u, In u users -> ~ In (name_of u) (map username t) /\ ~ In (mail_of u) (map email t)) ->
  exists rows, seed users (Some t) = Some (t ++ rows) /\ map fields rows = users.
Proof.
  revert t. induction users as [|[[n e] p] users IH]; intros t Hn He Hfree.
  - exists []. now rewrite app_nil_r.
  - cbn [map name_of mail_of fst snd] in Hn, He.
    apply NoDup_cons_iff in Hn, He. destruct Hn as [Hn Hns], He as [He Hes].
    destruct (Hfree (n, e, p) (or_introl eq_refl)) as [Hfn Hfe].
    cbn [name_of mail_of fst snd] in Hfn, Hfe.
    cbn [seed fold_left]. rewrite (create_user_accepted n e p t (not_taken n e t Hfn Hfe)).
    cbn [database]. set (row := mkUser (Some (fresh_id t)) n e p).
    destruct (IH (t ++ [row]) Hns Hes) as [rows [Hseed Hrows]].
    + intros u Hu. destruct (Hfree u (or_intror Hu)) as [Hun Hue].
      rewrite !map_app, !in_app_iff. cbn [map username email row In]. split.
      * intros [H|[H|[]]]; [contradiction|]. apply Hn. rewrite H. now apply in_map.
      * intros [H|[H|[]]]; [contradiction|]. apply He. rewrite H. now apply in_map.
    + exists (row :: rows). fold (seed users (Some (t ++ [row]))). rewrite Hseed.
      rewrite <- app_assoc. cbn [app map fields username email password row].
      now rewrite Hrows.
Qed.

(** C6. [get_first_n_users] prints the page that [limit] and [offset] cut
    out of the rows in storage order, which is the order of insertion: on a
    table seeded with five users, limit 2 and offset 0 give the first two,
    limit 2 and offset 4 give the fifth alone; in general, for a limit and
    an offset that are not negative and that the storage takes as
    parameters (below 2^63), the page is the first [limit] rows after the
    first [offset] ones. *)
Theorem get_first_n_users_pages (u1 u2 u3 u4 u5 : string * string * string) :
  NoDup (map name_of [u1; u2; u3; u4; u5]) ->
  NoDup (map mail_of [u1; u2; u3; u4; u5]) ->
  let db := seed [u1; u2; u3; u4; u5] (Some []) in
  exists r1 r2 r3 r4 r5,
    db = Some [r1; r2; r3; r4; r5] /\
    map fields [r1; r2; r3; r4; r5] = [u1; u2; u3; u4; u5] /\
    printed (get_first_n_users 2 0 db) = [Repr r1; Repr r2] /\
    printed (get_first_n_users 2 4 db) = [Repr r5] /\
    (forall (t : Table) (l o : Z), 0 <= l < 2 ^ 63 -> 0 <= o < 2 ^ 63 ->
       let out := get_first_n_users l o (Some t) in
       result out = Return tt /\ database out = Some t /\
       printed out
       = listing "No users found." (firstn (Z.to_nat l) (skipn (Z.to_nat o) t))).
Proof.
  intros Hn He. cbv zeta.
  destruct (seed_rows [u1; u2; u3; u4; u5] [] Hn He) as [rows [Hseed Hrows]].
  { intros u _. split; intros []. }
  cbn [app] in Hseed.
  destruct rows as [|r1 [|r2 [|r3 [|r4 [|r5 [|r6 rows]]]]]]; try discriminate Hrows.
  exists r1, r2, r3, r4, r5. rewrite Hseed.
  split; [reflexivity|]. split; [assumption|].
  rewrite !get_first_n_users_outcome by reflexivity. cbn [printed].
  split; [reflexivity|]. split; [reflexivity|].
  intros t l o Hl Ho.
  rewrite get_first_n_users_outcome by (apply int64_range; lia).
  cbn [result database printed].
  split; [reflexivity|]. split; [reflexivity|].
  now rewrite page_nonneg by lia.
Qed.

(** C6 for five users [ann] to [eve]. *)
Lemma get_first_n_users_pages_witness :
  let u1 := ("ann", "ann@mail.com", "annpass") in
  let u2 := ("ben", "ben@mail.com", "benpass") in
  let u3 := ("cat", "cat@mail.com", "catpass") in
  let u4 := ("dan", "dan@mail.com", "danpass") in
  let u5 := ("eve", "eve@mail.com", "evepass") in
  let db := seed [u1; u2; u3; u4; u5] (Some []) in
  exists r1 r2 r3 r4 r5,
    db = Some [r1; r2; r3; r4; r5] /\
    map fields [r1; r2; r3; r4; r5] = [u1; u2; u3; u4; u5] /\
    printed (get_first_n_users 2 0 db) = [Repr r1; Repr r2] /\
    printed (get_first_n_users 2 4 db) = [Repr r5] /\
    (forall (t : Table) (l o : Z), 0 <= l < 2 ^ 63 -> 0 <= o < 2 ^ 63 ->
       let out := get_first_n_users l o (Some t) in
       result out = Return tt /\ database out = Some t /\
       printed out
       = listing "No users found." (firstn (Z.to_nat l) (skipn (Z.to_nat o) t))).
Proof.
  apply (get_first_n_users_pages
           ("ann", "ann@mail.com", "annpass") ("ben", "ben@mail.com", "benpass")
           ("cat", "cat@mail.com", "catpass") ("dan", "dan@mail.com", "danpass")
           ("eve", "eve@mail.com", "evepass")).
  - cbn. repeat (apply NoDup_cons; [cbn; intuition discriminate|]). apply NoDup_nil.
  - cbn. repeat (apply NoDup_cons; [cbn; intuition discriminate|]). apply NoDup_nil.
Defined.

(** *** Updating an email *)

Lemma NoDup_map_inj {A B} (f : A -> B) (l : list A) (a b : A) :
  NoDup (map f l) -> In a l -> In b l -> f a = f b -> a = b.
Proof.
  induction l as [|x l IH]; intros Hnd Ha Hb Hf; [contradiction|].
  cbn [map] in Hnd. apply NoDup_cons_iff in Hnd. destruct Hnd as [Hx Hnd].
  destruct Ha as [->|Ha], Hb as [->|Hb].
  - reflexivity.
  - exfalso. apply Hx. rewrite Hf. now apply in_map.
  - exfalso. apply Hx. rewrite <- Hf. now apply in_map.
  - now apply IH.
Qed.

(** In a valid table the lookup by username finds the row of that name. *)
Lemma valid_named (t : Table) (a : User) :
  valid t -> In a t -> exists rest, named (username a) t = a :: rest.
Proof.
  intros (_ & _ & Hn & _) Hin.
  destruct (named (username a) t) as [|a' rest] eqn:E.
  - apply named_none in E. exfalso. apply E. now apply in_map.
  - exists rest. f_equal. destruct (named_In _ _ _ _ E) as [Hin' Hname].
    now apply (NoDup_map_inj username t).
Qed.

Lemma set_email_of_named (t : Table) (a : User) (i : Z) (e : string) :
  valid t -> In a t -> id a = Some i ->
  set_email_of i e t = email_changed (username a) e t.
Proof.
  intros (_ & Hk & Hn & _) Hin Hid. apply map_ext_in. intros r Hr.
  destruct (id_is i r) eqn:Hi, (String.eqb (username r) (username a)) eqn:Hu;
    try reflexivity; exfalso.
  - apply id_is_true in Hi. apply String.eqb_neq in Hu. apply Hu.
    f_equal. apply (NoDup_map_inj id t); congruence.
  - apply String.eqb_eq in Hu.
    assert (r = a) by now apply (NoDup_map_inj username t).
    subst r. apply id_is_true in Hid. congruence.
Qed.

Lemma reload_updated (t : Table) (a : User) (i : Z) (e : string) :
  valid t -> In a t -> id a = Some i ->
  reload (set_email_of i e t) (with_email a e) = with_email a e.
Proof.
  intros (_ & Hk & _) Hin Hid. unfold reload. cbn [id with_email]. rewrite Hid.
  rewrite (valid_sql_get (set_email_of i e t) (with_email a e) i); [reflexivity| | |].
  - now rewrite set_email_of_ids.
  - unfold set_email_of. apply in_map_iff. exists a. split; [|assumption].
    apply id_is_true in Hid. now rewrite Hid.
  - exact Hid.
Qed.

Lemma valid_bob_alice : valid [bob; alice].
Proof.
  unfold valid, bob, alice. cbn [map id username email].
  split; [|split; [|split]].
  - repeat constructor; discriminate.
  - repeat (apply NoDup_cons; [cbn; intuition discriminate|]). apply NoDup_nil.
  - repeat (apply NoDup_cons; [cbn; intuition discriminate|]). apply NoDup_nil.
  - repeat (apply NoDup_cons; [cbn; intuition discriminate|]). apply NoDup_nil.
Qed.




(** C8. When the table holds a user with the username and another record
    holds the new email, [change_email] ends with the constraint violation
    of the storage raised out of the command: nothing is printed and the
    table is as before; the failed flush has emptied the unit of work, and
    no rollback was issued, so the session is left inactive. *)
Theorem change_email_conflict_crashes (t : Table) (n e : string) (a b : User) :
  valid t ->
  In a t -> username a = n ->
  In b t -> email b = e -> b <> a ->
  let o := change_email n e (Some t) in
  result o = Raised IntegrityError /\
  printed o = [] /\
  database o = Some t /\
  inactive (at_exit o) = true /\ pending (at_exit o) = [].
Proof.
  intros Hv Ha Hname Hb Hmail Hab. cbv zeta. subst n e.
  destruct (valid_named t a Hv Ha) as [rest Hnamed].
  destruct (valid_has_id t a Hv Ha) as [i Hid].
  assert (Hheld : email_held_by_other i (email b) t = true).
  { apply existsb_exists. exists b. split; [assumption|].
    rewrite String.eqb_refl, andb_true_r. apply negb_true_iff.
    destruct (id_is i b) eqn:Hi; [|reflexivity].
    apply id_is_true in Hi. destruct Hv as (_ & Hk & _).
    exfalso. apply Hab. apply (NoDup_map_inj id t); congruence. }
  rewrite (change_email_rejected _ _ t a rest i Hnamed Hid Hheld).
  cbn [result printed database at_exit inactive pending].
  repeat split; reflexivity.
Qed.

(** C8 on the table of [bob] and [alice]: [alice] asks for the address of [bob]. *)
Lemma change_email_conflict_crashes_witness :
  let o := change_email "alice" "bob@mail.com" (Some [bob; alice]) in
  result o = Raised IntegrityError /\
  printed o = [] /\
  database o = Some [bob; alice] /\
  inactive (at_exit o) = true /\ pending (at_exit o) = [].
Proof.
  apply (change_email_conflict_crashes [bob; alice] "alice" "bob@mail.com" alice bob).
  - exact valid_bob_alice.
  - cbn. tauto.
  - reflexivity.
  - cbn. tauto.
  - reflexivity.
  - discriminate.
Defined.

(** *** Reachable states *)

(** Every invocation takes a database that meets the constraints of the
    schema to one that does. *)
Lemma cli_valid (c : Invocation) (db : Database) :
  valid_db db -> valid_db (database (cli c db)).
Proof.
  intros Hv. destruct db as [t|].
  - cbn [valid_db] in Hv. destruct c as [|n| |n e|n e p|n|q|l o]; cbn [cli].
    + rewrite initialize_outcome. exact valid_seed.
    + destruct (named n t) as [|a rest] eqn:E.
      * now rewrite (get_user_missing n t E).
      * now rewrite (get_user_found n t a rest E).
    + now rewrite get_all_users_outcome.
    + destruct (named n t) as [|a rest] eqn:E.
      * now rewrite (change_email_missing n e t E).
      * destruct (named_In n t a rest E) as [Hin _].
        destruct (valid_has_id t a Hv Hin) as [i Hid].
        destruct (email_held_by_other i e t) eqn:Hheld.
        -- now rewrite (change_email_rejected n e t a rest i E Hid Hheld).
        -- rewrite (change_email_accepted n e t a rest i E Hid Hheld).
           cbn [database valid_db]. now apply valid_update.
    + destruct (username_taken n t || email_taken e t) eqn:Htaken.
      * now rewrite (create_user_rejected n e p t Htaken).
      * rewrite (create_user_accepted n e p t Htaken).
        cbn [database valid_db]. now apply valid_insert.
    + destruct (named n t) as [|a rest] eqn:E.
      * now rewrite (delete_user_missing n t E).
      * destruct (named_In n t a rest E) as [Hin _].
        destruct (valid_has_id t a Hv Hin) as [i Hid].
        rewrite (delete_user_found n t a rest i E Hid).
        cbn [database valid_db]. now apply valid_delete.
    + destruct (get_user_from_partial_frame q t) as [-> _]. exact Hv.
    + destruct (get_first_n_users_frame (default 10 l) (default 0 o) t) as [-> _]. exact Hv.
  - destruct c; try exact I. cbn [cli]. rewrite initialize_outcome. exact valid_seed.
Qed.

Lemma reachable_valid (db : Database) : reachable db -> valid_db db.
Proof.
  induction 1 as [|db0|db c _ IH].
  - exact I.
  - rewrite initialize_outcome. exact valid_seed.
  - now apply cli_valid.
Qed.

(** C3. In every reachable state no username and no email is held by two
    records; writing a record whose username or email is already held is
    rejected by the storage, and the commit in [create_user] that attempts
    it raises the constraint violation; every invocation of a command takes
    a state that meets the constraints of the schema to one that does, hence
    to one without a repeated username or email. *)
Theorem uniqueness_invariant :
  (forall db, reachable db -> unique_columns db) /\
  (forall (t : Table) (n e p : string),
     In n (map username t) \/ In e (map email t) ->
     sql_insert (models.init n e p) t = Raised IntegrityError /\
     fst ((newuser <- new_User n e p ;; db_add newuser ;; db_commit)
            (open_session (Some t))) = Raised IntegrityError) /\
  (forall c db, valid_db db ->
     valid_db (database (cli c db)) /\ unique_columns (database (cli c db))).
Proof.
  split; [|split].
  - intros db H. apply valid_unique_columns. now apply reachable_valid.
  - intros t n e p H. apply taken in H.
    assert (Hins : sql_insert (models.init n e p) t = Raised IntegrityError).
    { unfold sql_insert. cbn [username email models.init]. now rewrite H. }
    split; [assumption|].
    unfold new_User, db_add, get, db_commit, bind, open_session. session_step.
    fold (models.init n e p). now rewrite Hins.
  - intros c db H. pose proof (cli_valid c db H) as Hv.
    split; [assumption | now apply valid_unique_columns].
Qed.

(* ================================================================== *)
(** ** Further properties of the commands *)

Lemma filter_all {A} (f : A -> bool) (l : list A) :
  (forall x, In x l -> f x = true) -> filter f l = l.
Proof.
  induction l as [|a l IH]; intros H; [reflexivity|].
  cbn. rewrite (H a (or_introl eq_refl)). f_equal. apply IH.
  intros x Hx. apply H. now right.
Qed.

(** In a valid table the key and the username single out the same row. *)
Lemma id_is_named (t : Table) (a : User) (i : Z) :
  valid t -> In a t -> id a = Some i ->
  forall r, In r t -> id_is i r = String.eqb (username r) (username a).
Proof.
  intros (_ & Hk & Hn & _) Hin Hid r Hr.
  destruct (id_is i r) eqn:Hi, (String.eqb (username r) (username a)) eqn:Hu;
    try reflexivity; exfalso.
  - apply id_is_true in Hi. apply String.eqb_neq in Hu. apply Hu.
    f_equal. apply (NoDup_map_inj id t); congruence.
  - apply String.eqb_eq in Hu.
    assert (r = a) by now apply (NoDup_map_inj username t).
    subst r. apply id_is_true in Hid. congruence.
Qed.

Lemma without_names (n : string) (t : Table) : ~ In n (map username (without n t)).
Proof.
  rewrite in_map_iff. intros [r [Hr Hin]]. apply filter_In in Hin.
  destruct Hin as [_ Hne]. apply negb_true_iff, String.eqb_neq in Hne. contradiction.
Qed.

Lemma without_length (n : string) (t : Table) :
  NoDup (map username t) -> In n (map username t) ->
  S (List.length (without n t)) = List.length t.
Proof.
  induction t as [|x t IH]; intros Hnd Hin; [contradiction|].
  cbn [map] in Hnd. apply NoDup_cons_iff in Hnd. destruct Hnd as [Hx Hnd].
  unfold without. cbn [filter List.length]. fold (without n t).
  destruct (String.eqb (username x) n) eqn:E; cbn [negb].
  - apply String.eqb_eq in E. subst n. unfold without. rewrite filter_all; [reflexivity|].
    intros r Hr. apply negb_true_iff, String.eqb_neq. intros Heq.
    apply Hx. rewrite <- Heq. now apply in_map.
  - cbn [List.length]. f_equal. apply IH; [assumption|].
    destruct Hin as [Heq|Hin]; [|assumption].
    apply String.eqb_neq in E. contradiction.
Qed.

(** [delete_user] for a username the valid table holds. *)
Lemma delete_user_present (t : Table) (n : string) :
  valid t -> In n (map username t) ->
  result (delete_user n (Some t)) = Return tt /\
  printed (delete_user n (Some t)) = [Text (n +s+ " deleted")] /\
  database (delete_user n (Some t)) = Some (without n t).
Proof.
  intros Hv Hn. apply in_map_iff in Hn. destruct Hn as [a [Hname Hin]]. subst n.
  destruct (valid_named t a Hv Hin) as [rest Hnamed].
  destruct (valid_has_id t a Hv Hin) as [i Hid].
  rewrite (delete_user_found _ t a rest i Hnamed Hid). cbn [result printed database].
  split; [reflexivity|]. split; [reflexivity|]. f_equal.
  unfold sql_delete, without. apply filter_ext_in. intros r Hr.
  now rewrite (id_is_named t a i Hv Hin Hid r Hr).
Qed.

(** [change_email] for a username the valid table holds and an email no
    other record holds. *)
Lemma change_email_free (t : Table) (a : User) (e : string) :
  valid t -> In a t ->
  (forall r, In r t -> email r = e -> username r = username a) ->
  result (change_email (username a) e (Some t)) = Return tt /\
  printed (change_email (username a) e (Some t))
  = [Text ("Updated " +s+ username a +s+ "'s email to " +s+ e)] /\
  database (change_email (username a) e (Some t))
  = Some (email_changed (username a) e t).
Proof.
  intros Hv Hin Hfree.
  destruct (valid_named t a Hv Hin) as [rest Hnamed].
  destruct (valid_has_id t a Hv Hin) as [i Hid].
  assert (Hheld : email_held_by_other i e t = false).
  { apply email_held_by_other_false. intros r Hr He.
    destruct Hv as (_ & _ & Hnd & _).
    assert (r = a) by (apply (NoDup_map_inj username t); auto).
    now subst r. }
  rewrite (change_email_accepted _ e t a rest i Hnamed Hid Hheld).
  cbn [result database printed].
  rewrite (reload_updated t a i e Hv Hin Hid), (set_email_of_named t a i e Hv Hin Hid).
  cbn [username email with_email]. repeat split; reflexivity.
Qed.

(** X1. [get_all_users] exits normally and leaves the table as it is; it
    prints every record, in storage order, or the text "No users found"
    when the table is empty. *)
Theorem get_all_users_lists_table (t : Table) :
  let o := get_all_users (Some t) in
  result o = Return tt /\ database o = Some t /\
  (t = [] -> printed o = [Text "No users found"]) /\
  (t <> [] -> printed o = map Repr t).
Proof.
  cbv zeta. rewrite get_all_users_outcome. cbn [result database printed].
  split; [reflexivity|]. split; [reflexivity|]. split.
  - now intros ->.
  - intros Hne. destruct t as [|a t]; [contradiction | reflexivity].
Qed.

(** X2. On a valid table that holds the username, [delete_user] exits
    normally, reports the deletion and removes that record and no other:
    the other records stay, in their order, the username is gone, and the
    table has one row less. *)
Theorem delete_user_removes_record (t : Table) (n : string) :
  valid t -> In n (map username t) ->
  let o := delete_user n (Some t) in
  result o = Return tt /\
  printed o = [Text (n +s+ " deleted")] /\
  database o = Some (without n t) /\
  (forall r, In r t -> username r <> n -> In r (without n t)) /\
  (forall r, In r (without n t) -> In r t) /\
  ~ In n (map username (without n t)) /\
  S (List.length (without n t)) = List.length t.
Proof.
  intros Hv Hn. cbv zeta.
  destruct (delete_user_present t n Hv Hn) as (Hres & Hout & Hdb).
  split; [assumption|]. split; [assumption|]. split; [assumption|].
  split; [|split; [|split]].
  - intros r Hr Hne. apply filter_In. split; [assumption|].
    now apply negb_true_iff, String.eqb_neq.
  - intros r Hr. apply filter_In in Hr. tauto.
  - apply without_names.
  - destruct Hv as (_ & _ & Hnd & _). now apply without_length.
Qed.

(** X2 on the table of [bob] and [alice]: [bob] is deleted. *)
Lemma delete_user_removes_record_witness :
  let t := [bob; alice] in
  let o := delete_user "bob" (Some t) in
  result o = Return tt /\
  printed o = [Text ("bob" +s+ " deleted")] /\
  database o = Some (without "bob" t) /\
  (forall r, In r t -> username r <> "bob" -> In r (without "bob" t)) /\
  (forall r, In r (without "bob" t) -> In r t) /\
  ~ In "bob" (map username (without "bob" t)) /\
  S (List.length (without "bob" t)) = List.length t.
Proof.
  apply (delete_user_removes_record [bob; alice] "bob").
  - exact valid_bob_alice.
  - cbn. tauto.
Defined.

(** X3. Once [delete_user] has removed a user, looking the username up
    finds nothing: [get_user] prints its not-found message, and a second
    [delete_user] prints its own and changes nothing. *)
Theorem delete_user_then_lookup (t : Table) (n : string) :
  valid t -> In n (map username t) ->
  let db := database (delete_user n (Some t)) in
  printed (get_user n db) = [Text (n +s+ " not found!")] /\
  result (get_user n db) = Return tt /\
  printed (delete_user n db) = [Text (n +s+ " not found! Unable to delete user.")] /\
  result (delete_user n db) = Return tt /\
  database (delete_user n db) = db.
Proof.
  intros Hv Hn. cbv zeta.
  destruct (delete_user_present t n Hv Hn) as (_ & _ & ->).
  pose proof (proj2 (named_none n (without n t)) (without_names n t)) as Hnone.
  rewrite (get_user_missing n _ Hnone), (delete_user_missing n _ Hnone).
  cbn [printed result database]. repeat split; reflexivity.
Qed.

(** X3 on the table of [bob] and [alice], for [alice]. *)
Lemma delete_user_then_lookup_witness :
  let db := database (delete_user "alice" (Some [bob; alice])) in
  printed (get_user "alice" db) = [Text ("alice" +s+ " not found!")] /\
  result (get_user "alice" db) = Return tt /\
  printed (delete_user "alice" db)
  = [Text ("alice" +s+ " not found! Unable to delete user.")] /\
  result (delete_user "alice" db) = Return tt /\
  database (delete_user "alice" db) = db.
Proof.
  apply (delete_user_then_lookup [bob; alice] "alice").
  - exact valid_bob_alice.
  - cbn. tauto.
Defined.





(** X6. The four commands that only read never change the persisted state,
    whatever it is, and schedule nothing: the session's unit of work is
    empty when they end. *)
Theorem reading_commands_change_nothing (db : Database) (n q : string) (l o : Z) :
  (database (get_user n db) = db /\ pending (at_exit (get_user n db)) = []) /\
  (database (get_all_users db) = db /\ pending (at_exit (get_all_users db)) = []) /\
  (database (get_user_from_partial q db) = db /\
   pending (at_exit (get_user_from_partial q db)) = []) /\
  (database (get_first_n_users l o db) = db /\
   pending (at_exit (get_first_n_users l o db)) = []).
Proof.
  destruct db as [t|]; [|repeat split; reflexivity].
  rewrite get_all_users_outcome. cbn [database at_exit pending].
  destruct (get_user_from_partial_frame q t) as (Hq1 & Hq2 & _).
  destruct (get_first_n_users_frame l o t) as (Hp1 & Hp2 & _).
  split; [|now repeat split].
  destruct (named n t) as [|a rest] eqn:E.
  - now rewrite (get_user_missing n t E).
  - now rewrite (get_user_found n t a rest E).
Qed.

(** X7 for [get_user]. *)
Lemma no_table_witness :
  result (cli (GetUser "bob") None) = Raised OperationalError /\
  database (cli (GetUser "bob") None) = None /\ printed (cli (GetUser "bob") None) = [].
Proof.
  apply (no_table (GetUser "bob")). discriminate.
Defined.

(** *** More on pages *)

Lemma firstn_plus {A} (a b : nat) (l : list A) :
  firstn (a + b) l = firstn a l ++ firstn b (skipn a l).
Proof.
  revert l. induction a as [|a IH]; intros l; [reflexivity|].
  destruct l as [|x l]; cbn [Nat.add firstn skipn app].
  - now rewrite firstn_nil.
  - now rewrite IH.
Qed.

Lemma listing_length (empty : string) (rows : list User) :
  (List.length (listing empty rows) <= Nat.max 1 (List.length rows))%nat.
Proof. destruct rows; cbn [listing List.length]; [|rewrite length_map; cbn]; lia. Qed.

(** X8. With a limit and an offset that are not negative and below 2^63,
    [get_first_n_users] prints "No users found." when the offset reaches
    the end of the table or the limit is zero, also on a table that holds
    users; it exits normally and changes nothing. *)
Theorem get_first_n_users_past_the_end (t : Table) (l o : Z) :
  0 <= l < 2 ^ 63 -> 0 <= o < 2 ^ 63 ->
  Z.of_nat (List.length t) <= o \/ l = 0 ->
  let out := get_first_n_users l o (Some t) in
  printed out = [Text "No users found."] /\
  result out = Return tt /\ database out = Some t.
Proof.
  intros Hl Ho Hcase. cbv zeta.
  rewrite get_first_n_users_outcome by (apply int64_range; lia).
  cbn [printed result database]. rewrite (page_nonneg l o t) by lia.
  split; [|split; reflexivity]. destruct Hcase as [Hend| ->].
  - rewrite skipn_all2 by lia. now rewrite firstn_nil.
  - reflexivity.
Qed.

(** X8 on the table of [bob] and [alice], with the offset at its end. *)
Lemma get_first_n_users_past_the_end_witness :
  let out := get_first_n_users 10 2 (Some [bob; alice]) in
  printed out = [Text "No users found."] /\
  result out = Return tt /\ database out = Some [bob; alice].
Proof.
  apply (get_first_n_users_past_the_end [bob; alice] 10 2); [lia | lia |].
  left. cbn. lia.
Defined.

(** X9. With a limit that is not negative, [get_first_n_users] prints at
    most [limit] lines, or the one line of its message, and every record it
    prints is a record of the table. *)
Theorem get_first_n_users_bounded (t : Table) (l o : Z) :
  0 <= l ->
  let out := get_first_n_users l o (Some t) in
  Z.of_nat (List.length (printed out)) <= Z.max 1 l /\
  (forall r, In (Repr r) (printed out) -> In r t).
Proof.
  intros Hl. cbv zeta. destruct (int64 o && int64 l) eqn:Hb.
  2: { rewrite (get_first_n_users_overflow l o t Hb). cbn [printed List.length].
       split; [lia | intros r []]. }
  apply andb_true_iff in Hb. destruct Hb as [Hio Hil].
  rewrite (get_first_n_users_outcome l o t Hil Hio). cbn [printed].
  rewrite (page_nonneg l o t Hl). split.
  - pose proof (listing_length "No users found."
                  (firstn (Z.to_nat l) (skipn (Z.to_nat o) t))) as Hlen.
    pose proof (firstn_le_length (Z.to_nat l) (skipn (Z.to_nat o) t)). lia.
  - intros r Hr.
    assert (Hin : In r (firstn (Z.to_nat l) (skipn (Z.to_nat o) t))).
    { destruct (firstn (Z.to_nat l) (skipn (Z.to_nat o) t)) as [|a rows];
        cbn [listing] in Hr.
      - destruct Hr as [Hr|[]]. discriminate.
      - apply in_map_iff in Hr. destruct Hr as [x [[= ->] Hx]]. assumption. }
    rewrite <- (firstn_skipn (Z.to_nat o) t). apply in_or_app. right.
    rewrite <- (firstn_skipn (Z.to_nat l) (skipn (Z.to_nat o) t)).
    apply in_or_app. now left.
Qed.

(** X9 on the table of [bob] and [alice], for a page of one. *)
Lemma get_first_n_users_bounded_witness :
  let out := get_first_n_users 1 0 (Some [bob; alice]) in
  Z.of_nat (List.length (printed out)) <= Z.max 1 1 /\
  (forall r, In (Repr r) (printed out) -> In r [bob; alice]).
Proof.
  apply (get_first_n_users_bounded [bob; alice] 1 0). lia.
Defined.

(** X10. Pages follow one another without a gap or an overlap: when the
    table goes on past the first [offset + limit] rows, the page of
    [limit] rows at [offset] followed by the page of [limit'] rows at
    [offset + limit] is what one page of [limit + limit'] rows at [offset]
    prints, for limits and offsets that stay below 2^63. *)
Theorem get_first_n_users_pages_join (t : Table) (l l' o : Z) :
  0 < l -> 0 < l' -> 0 <= o -> o + l < Z.of_nat (List.length t) ->
  l + l' < 2 ^ 63 -> o + l < 2 ^ 63 ->
  printed (get_first_n_users (l + l') o (Some t))
  = printed (get_first_n_users l o (Some t))
    ++ printed (get_first_n_users l' (o + l) (Some t)).
Proof.
  intros Hl Hl' Ho Hlong Hsum Hoff.
  rewrite !get_first_n_users_outcome by (apply int64_range; lia). cbn [printed].
  rewrite !page_nonneg by lia.
  replace (Z.to_nat (l + l')) with (Z.to_nat l + Z.to_nat l')%nat by lia.
  replace (Z.to_nat (o + l)) with (Z.to_nat l + Z.to_nat o)%nat by lia.
  rewrite firstn_plus, <- skipn_skipn.
  set (rest := skipn (Z.to_nat o) t).
  assert (Hrest : (Z.to_nat l < List.length rest)%nat).
  { unfold rest. rewrite length_skipn. lia. }
  destruct (firstn (Z.to_nat l) rest) as [|a p1] eqn:E1.
  { apply (f_equal (@List.length User)) in E1. rewrite length_firstn in E1.
    cbn in E1. lia. }
  destruct (firstn (Z.to_nat l') (skipn (Z.to_nat l) rest)) as [|b p2] eqn:E2.
  { apply (f_equal (@List.length User)) in E2.
    rewrite length_firstn, length_skipn in E2. cbn in E2. lia. }
  cbn [listing app]. now rewrite <- map_app.
Qed.

(** X10 on the table of [bob] and [alice]: two pages of one row. *)
Lemma get_first_n_users_pages_join_witness :
  printed (get_first_n_users (1 + 1) 0 (Some [bob; alice]))
  = printed (get_first_n_users 1 0 (Some [bob; alice]))
    ++ printed (get_first_n_users 1 (0 + 1) (Some [bob; alice])).
Proof.
  apply (get_first_n_users_pages_join [bob; alice] 1 1 0); cbn; lia.
Defined.

(** X23. A limit or an offset outside the signed 64-bit range is not
    accepted as a parameter of the query: on a database with tables
    [get_first_n_users] ends with an [OverflowError] raised out of the
    command, prints nothing and leaves the table as it is. *)
Theorem get_first_n_users_out_of_range (t : Table) (l o : Z) :
  l < - 2 ^ 63 \/ 2 ^ 63 <= l \/ o < - 2 ^ 63 \/ 2 ^ 63 <= o ->
  let out := get_first_n_users l o (Some t) in
  result out = Raised OverflowError /\ printed out = [] /\ database out = Some t.
Proof.
  intros H. cbv zeta. rewrite get_first_n_users_overflow; [now repeat split|].
  unfold int64. apply andb_false_iff.
  rewrite !andb_false_iff, !Z.leb_gt, !Z.ltb_ge. lia.
Qed.

(** X23 for the limit 2^63 on the table of [bob] and [alice]. *)
Lemma get_first_n_users_out_of_range_witness :
  let out := get_first_n_users (2 ^ 63) 0 (Some [bob; alice]) in
  result out = Raised OverflowError /\ printed out = [] /\
  database out = Some [bob; alice].
Proof.
  apply (get_first_n_users_out_of_range [bob; alice] (2 ^ 63) 0). lia.
Defined.

(** X11. Invoked without arguments, [get_first_n_users] takes the limit 10
    and the offset 0: on a table of one to ten users it prints every user,
    as [get_all_users] does, and of a longer table the first ten. *)
Theorem get_first_n_users_defaults (t : Table) :
  t <> [] ->
  let out := cli (GetFirstNUsers None None) (Some t) in
  printed out = map Repr (firstn 10 t) /\
  ((List.length t <= 10)%nat -> printed out = printed (cli GetAllUsers (Some t))).
Proof.
  intros Hne. cbv zeta. cbn [cli default].
  rewrite get_first_n_users_outcome by reflexivity.
  rewrite get_all_users_outcome. cbn [printed].
  rewrite (page_nonneg 10 0 t) by lia.
  change (Z.to_nat 0) with 0%nat. change (Z.to_nat 10) with 10%nat. cbn [skipn].
  destruct t as [|a t]; [contradiction|]. split; [reflexivity|].
  intros Hlen. now rewrite (firstn_all2 (a :: t) Hlen).
Qed.

(** X11 on the table of [bob] and [alice]. *)
Lemma get_first_n_users_defaults_witness :
  let out := cli (GetFirstNUsers None None) (Some [bob; alice]) in
  printed out = map Repr (firstn 10 [bob; alice]) /\
  ((List.length [bob; alice] <= 10)%nat ->
   printed out = printed (cli GetAllUsers (Some [bob; alice]))).
Proof.
  apply (get_first_n_users_defaults [bob; alice]). discriminate.
Defined.

(** *** More on lookups and updates *)

(** X12. On any table that holds the username, [get_user] prints one
    record, a record of the table with that username, exits normally and
    leaves the table as it is. *)
Theorem get_user_prints_the_record (t : Table) (n : string) :
  In n (map username t) ->
  let o := get_user n (Some t) in
  result o = Return tt /\ database o = Some t /\
  exists a, printed o = [Repr a] /\ In a t /\ username a = n.
Proof.
  intros Hn. cbv zeta. destruct (named n t) as [|a rest] eqn:E.
  - apply named_none in E. contradiction.
  - rewrite (get_user_found n t a rest E). cbn [result database printed].
    split; [reflexivity|]. split; [reflexivity|].
    exists a. destruct (named_In n t a rest E). now repeat split.
Qed.

(** X12 on the table of [bob] and [alice], for [alice]. *)
Lemma get_user_prints_the_record_witness :
  let o := get_user "alice" (Some [bob; alice]) in
  result o = Return tt /\ database o = Some [bob; alice] /\
  exists a, printed o = [Repr a] /\ In a [bob; alice] /\ username a = "alice".
Proof.
  apply (get_user_prints_the_record [bob; alice] "alice"). cbn. tauto.
Defined.



(** X14. [change_email] with the email the user already has is accepted, on
    a valid table: the storage sees no conflict of the record with itself,
    the update is reported and the table is as before. *)
Theorem change_email_to_own_address (t : Table) (a : User) :
  valid t -> In a t ->
  let o := change_email (username a) (email a) (Some t) in
  result o = Return tt /\
  printed o = [Text ("Updated " +s+ username a +s+ "'s email to " +s+ email a)] /\
  database o = Some t.
Proof.
  intros Hv Hin. cbv zeta.
  assert (Hfree : forall r, In r t -> email r = email a -> username r = username a).
  { intros r Hr He. destruct Hv as (_ & _ & _ & Hnd).
    f_equal. now apply (NoDup_map_inj email t). }
  destruct (change_email_free t a (email a) Hv Hin Hfree) as (-> & -> & ->).
  split; [reflexivity|]. split; [reflexivity|]. f_equal.
  unfold email_changed. rewrite <- (map_id t) at 2. apply map_ext_in.
  intros r Hr. destruct (String.eqb (username r) (username a)) eqn:E; [|reflexivity].
  apply String.eqb_eq in E. destruct Hv as (_ & _ & Hnd & _).
  assert (r = a) by now apply (NoDup_map_inj username t).
  subst r. now destruct a.
Qed.

(** X14 on the table of [bob] and [alice], for [bob]. *)
Lemma change_email_to_own_address_witness :
  let o := change_email (username bob) (email bob) (Some [bob; alice]) in
  result o = Return tt /\
  printed o = [Text ("Updated " +s+ username bob +s+ "'s email to " +s+ email bob)] /\
  database o = Some [bob; alice].
Proof.
  apply (change_email_to_own_address [bob; alice] bob).
  - exact valid_bob_alice.
  - cbn. tauto.
Defined.



(** *** More on partial matches *)

(** X16. [get_user_from_partial] does not tell the letter case of the
    query: two queries that are equal once lower-cased select the same
    records, and print the same lines when they select any. *)
Theorem get_user_from_partial_query_case (t : Table) (q q' : string) :
  lower_string q = lower_string q' ->
  partial_matches q t = partial_matches q' t /\
  (partial_matches q t <> [] ->
   printed (get_user_from_partial q (Some t))
   = printed (get_user_from_partial q' (Some t))).
Proof.
  intros Hq.
  assert (Hsame : partial_matches q t = partial_matches q' t).
  { unfold partial_matches. apply filter_ext. intros u. unfold ilike.
    now rewrite !partial_pattern_lower, Hq. }
  split; [assumption|]. intros Hne.
  assert (Hlen : String.length q = String.length q').
  { rewrite <- (length_lower_string q), <- (length_lower_string q'). now rewrite Hq. }
  assert (Htc : too_complex ("%" +s+ q' +s+ "%") = too_complex ("%" +s+ q +s+ "%")).
  { unfold too_complex. now rewrite !pattern_length, Hlen. }
  destruct (too_complex ("%" +s+ q +s+ "%")) eqn:E.
  - assert (Ht : t <> []) by (intros ->; now apply Hne).
    now rewrite (get_user_from_partial_too_complex q t E Ht),
                (get_user_from_partial_too_complex q' t Htc Ht).
  - rewrite !get_user_from_partial_outcome by (left; assumption).
    cbn [printed]. rewrite <- Hsame.
    destruct (partial_matches q t); [contradiction | reflexivity].
Qed.

(** X16 for the queries [BOB] and [bob] on the table of [bob] and [alice]. *)
Lemma get_user_from_partial_query_case_witness :
  partial_matches "BOB" [bob; alice] = partial_matches "bob" [bob; alice] /\
  (partial_matches "BOB" [bob; alice] <> [] ->
   printed (get_user_from_partial "BOB" (Some [bob; alice]))
   = printed (get_user_from_partial "bob" (Some [bob; alice]))).
Proof.
  apply (get_user_from_partial_query_case [bob; alice] "BOB" "bob"). reflexivity.
Defined.

Lemma all_percent_lower (q : string) :
  all_percent q = true -> lower_string q = q.
Proof.
  induction q as [|c q IH]; intros H; [reflexivity|].
  cbn [all_percent] in H. apply andb_true_iff in H. destruct H as [Hc Hq].
  apply Ascii.eqb_eq in Hc. subst c. cbn [lower_string]. now rewrite (IH Hq).
Qed.

(** A pattern of one or more percent signs takes any string. *)
Lemma like_all_percent (p s : string) :
  all_percent p = true -> p <> EmptyString -> like p s = true.
Proof.
  induction p as [|c p IH]; intros H Hne; [contradiction|].
  cbn [all_percent] in H. apply andb_true_iff in H. destruct H as [Hc Hp].
  apply Ascii.eqb_eq in Hc. subst c. destruct p as [|d p].
  - apply like_percent.
  - cbn [like]. change (Ascii.eqb "%" "%") with true. cbv iota.
    apply on_some_suffix_here. apply IH; [assumption | discriminate].
Qed.

(** X17. A query made of at most 49998 percent signs and nothing else is a
    wildcard, not a text to look for: [get_user_from_partial] then prints
    every user of a table that is not empty, whether or not a percent sign
    occurs in any field. *)
Theorem get_user_from_partial_percent_query (t : Table) (q : string) :
  all_percent q = true -> Z.of_nat (String.length q) <= 49998 -> t <> [] ->
  let o := get_user_from_partial q (Some t) in
  result o = Return tt /\ printed o = map Repr t /\ database o = Some t.
Proof.
  intros Hq Hlen Hne. cbv zeta.
  rewrite get_user_from_partial_outcome by (left; now apply pattern_within).
  cbn [result printed database].
  assert (Hpat : forall s, ilike s ("%" +s+ q +s+ "%") = true).
  { intros s. unfold ilike. rewrite partial_pattern_lower, (all_percent_lower q Hq).
    apply like_all_percent; [|discriminate].
    cbn [String.append all_percent]. change (Ascii.eqb "%" "%") with true.
    cbn [andb]. clear Hlen. induction q as [|c q IH]; [reflexivity|].
    cbn [all_percent] in Hq. apply andb_true_iff in Hq. destruct Hq as [Hc Hq].
    cbn [String.append all_percent]. rewrite Hc. cbn [andb]. now apply IH. }
  assert (Hall : partial_matches q t = t).
  { unfold partial_matches. apply filter_all. intros u _. now rewrite !Hpat. }
  rewrite Hall. destruct t as [|a t]; [contradiction|].
  repeat split; reflexivity.
Qed.

(** X17 for the query of one percent sign on the table of [bob] and [alice]. *)
Lemma get_user_from_partial_percent_query_witness :
  let o := get_user_from_partial "%" (Some [bob; alice]) in
  result o = Return tt /\ printed o = map Repr [bob; alice] /\
  database o = Some [bob; alice].
Proof.
  apply (get_user_from_partial_percent_query [bob; alice] "%").
  - reflexivity.
  - cbn. lia.
  - discriminate.
Defined.

(** *** Crashes and the state of the session *)



(** X19. A command that exits normally leaves nothing behind in its
    session: on a state that meets the constraints of the schema, with or
    without tables, the unit of work is empty and the session is active
    when the body ends, so the release of the session drops no change. *)
Theorem normal_exit_leaves_session_clean (db : Database) (c : Invocation) :
  valid_db db ->
  result (cli c db) = Return tt ->
  pending (at_exit (cli c db)) = [] /\ inactive (at_exit (cli c db)) = false.
Proof.
  intros Hv. destruct db as [t|].
  - cbn [valid_db] in Hv. destruct c as [|n| |n e|n e p|n|q|l o]; cbn [cli].
    + rewrite initialize_outcome. now split.
    + destruct (named n t) as [|a rest] eqn:E.
      * rewrite (get_user_missing n t E). now split.
      * rewrite (get_user_found n t a rest E). now split.
    + rewrite get_all_users_outcome. now split.
    + destruct (named n t) as [|a rest] eqn:E.
      * rewrite (change_email_missing n e t E). now split.
      * destruct (named_In n t a rest E) as [Hin _].
        destruct (valid_has_id t a Hv Hin) as [i Hid].
        destruct (email_held_by_other i e t) eqn:Hheld.
        -- rewrite (change_email_rejected n e t a rest i E Hid Hheld). discriminate.
        -- rewrite (change_email_accepted n e t a rest i E Hid Hheld). now split.
    + destruct (username_taken n t || email_taken e t) eqn:Htaken.
      * rewrite (create_user_rejected n e p t Htaken). now split.
      * rewrite (create_user_accepted n e p t Htaken). now split.
    + destruct (named n t) as [|a rest] eqn:E.
      * rewrite (delete_user_missing n t E). now split.
      * destruct (named_In n t a rest E) as [Hin _].
        destruct (valid_has_id t a Hv Hin) as [i Hid].
        rewrite (delete_user_found n t a rest i E Hid). now split.
    + destruct (get_user_from_partial_frame q t) as (_ & Hp & Hi & _). now split.
    + destruct (get_first_n_users_frame (default 10 l) (default 0 o) t)
        as (_ & Hp & Hi & _). now split.
  - destruct c; cbn [cli]; try (intros H; discriminate H).
    rewrite initialize_outcome. now split.
Qed.

(** X19 for a [create_user] that is turned down on the table of the seed
    user: the rollback of the [except] branch has emptied the session. *)
Lemma normal_exit_leaves_session_clean_witness :
  pending (at_exit (cli (CreateUser "bob" "b@mail.com" "pw") (Some [bob]))) = [] /\
  inactive (at_exit (cli (CreateUser "bob" "b@mail.com" "pw") (Some [bob]))) = false.
Proof.
  apply (normal_exit_leaves_session_clean (Some [bob]) (CreateUser "bob" "b@mail.com" "pw")).
  - exact valid_seed.
  - reflexivity.
Defined.
